(** * tui.grid: the clipboard view and the row data store's paste pipeline

    A shallow embedding of [src/js/view/clipboard.js] (the key-event
    controller of the grid) and of the paste / delete operations of the row
    data store that it drives, together with the properties the design
    document states about them.

    Layout:
    - [JsString]  : [String.prototype.split] for a one-character separator;
    - [Clipboard] : the view, as state-passing functions that log their
                    calls, over an abstract interface of the collaborating
                    models;
    - [RowList]   : the row data store's [paste], [del] and [delRange]. *)

From Stdlib Require Import ZArith List Bool Ascii String Lia.
From stdpp Require Import base list strings gmap.

Local Open Scope string_scope.
Local Open Scope list_scope.

(* ===================================================================== *)
(** ** Strings as JavaScript sees them *)
(* ===================================================================== *)

Module JsString.

Definition newline : ascii := Ascii.ascii_of_nat 10.
Definition tab : ascii := Ascii.ascii_of_nat 9.

(** [s.split(sep)] for a separator of exactly one character: the pieces of
    [s] between consecutive occurrences of [sep], in order.  The empty
    string has one (empty) piece. *)
Fixpoint split (sep : ascii) (s : string) : list string :=
  match s with
  | EmptyString => [EmptyString]
  | String c rest =>
      if Ascii.eqb c sep then EmptyString :: split sep rest
      else match split sep rest with
           | piece :: pieces => String c piece :: pieces
           | [] => [String c EmptyString]
           end
  end.

(** [pieces.join(sep)]. *)
Fixpoint join (sep : ascii) (pieces : list string) : string :=
  match pieces with
  | [] => EmptyString
  | [p] => p
  | p :: ps => p ++ String sep (join sep ps)
  end.

Fixpoint contains (sep : ascii) (s : string) : bool :=
  match s with
  | EmptyString => false
  | String c rest => Ascii.eqb c sep || contains sep rest
  end.

Definition carriage_return : ascii := Ascii.ascii_of_nat 13.

(** [s.replace(/x/g, "")] for a one-character pattern: [s] without its
    occurrences of [x]. *)
Fixpoint strip (x : ascii) (s : string) : string :=
  match s with
  | EmptyString => EmptyString
  | String c rest =>
      if Ascii.eqb c x then strip x rest else String c (strip x rest)
  end.

(** How many times [sep] occurs in [s]. *)
Fixpoint occurrences (sep : ascii) (s : string) : nat :=
  match s with
  | EmptyString => 0
  | String c rest =>
      if Ascii.eqb c sep then S (occurrences sep rest)
      else occurrences sep rest
  end.

Lemma split_nonempty sep s : split sep s <> [].
Proof.
  destruct s as [|c rest]; simpl; [discriminate|].
  destruct (Ascii.eqb c sep); [discriminate|].
  destruct (split sep rest); discriminate.
Qed.

Lemma split_length_pos sep s : (0 < length (split sep s))%nat.
Proof.
  pose proof (split_nonempty sep s) as H.
  destruct (split sep s); [congruence | simpl; lia].
Qed.

(** Joining the pieces back gives the string that was split. *)
Lemma join_split sep s : join sep (split sep s) = s.
Proof.
  induction s as [|c rest IH]; simpl; [reflexivity|].
  destruct (Ascii.eqb c sep) eqn:E.
  - apply Ascii.eqb_eq in E; subst c.
    pose proof (split_nonempty sep rest) as Hne.
    destruct (split sep rest) as [|p ps] eqn:Es; [congruence|].
    simpl. simpl in IH. rewrite IH. reflexivity.
  - pose proof (split_nonempty sep rest) as Hne.
    destruct (split sep rest) as [|p ps] eqn:Es; [congruence|].
    destruct ps as [|q qs]; [simpl in *; now rewrite IH|].
    change (String c (p ++ String sep (join sep (q :: qs))) = String c rest).
    f_equal. exact IH.
Qed.

(** No piece holds the separator. *)
Lemma split_pieces_clean sep s :
  Forall (fun p => contains sep p = false) (split sep s).
Proof.
  induction s as [|c rest IH]; simpl.
  - constructor; [reflexivity | constructor].
  - destruct (Ascii.eqb c sep) eqn:E.
    + constructor; [reflexivity | exact IH].
    + destruct (split sep rest) as [|p ps]; simpl.
      * constructor; [simpl; now rewrite E | constructor].
      * inversion IH; subst. constructor; [simpl; now rewrite E | assumption].
Qed.

(** A string without the separator is a single piece. *)
Lemma split_clean sep s : contains sep s = false -> split sep s = [s].
Proof.
  induction s as [|c rest IH]; simpl; [reflexivity|].
  intros H. apply orb_false_iff in H as [Hc Hr].
  rewrite Hc, (IH Hr). reflexivity.
Qed.

(** The pieces are one more than the separators. *)
Lemma split_length sep s : length (split sep s) = S (occurrences sep s).
Proof.
  induction s as [|c rest IH]; simpl; [reflexivity|].
  destruct (Ascii.eqb c sep); simpl; [now rewrite IH|].
  pose proof (split_nonempty sep rest) as Hne.
  destruct (split sep rest) as [|p ps]; [congruence|]. simpl in *. exact IH.
Qed.

Lemma contains_append x (s1 s2 : string) :
  contains x (s1 ++ s2)%string = contains x s1 || contains x s2.
Proof.
  induction s1 as [|c s1 IH]; simpl; [reflexivity|].
  now rewrite IH, orb_assoc.
Qed.

(** A piece of a string holds no character that the string does not hold. *)
Lemma split_pieces_without x sep s :
  contains x s = false ->
  Forall (fun p => contains x p = false) (split sep s).
Proof.
  induction s as [|c rest IH]; simpl; intros H.
  - constructor; [reflexivity | constructor].
  - apply orb_false_iff in H as [Hc Hr]. specialize (IH Hr).
    destruct (Ascii.eqb c sep).
    + constructor; [reflexivity | exact IH].
    + destruct (split sep rest) as [|p ps].
      * constructor; [simpl; now rewrite Hc | constructor].
      * inversion IH; subst. constructor; [|assumption].
        simpl. rewrite Hc. assumption.
Qed.

Lemma split_append_sep sep p rest :
  contains sep p = false ->
  split sep (p ++ String sep rest)%string = p :: split sep rest.
Proof.
  induction p as [|c p IH]; simpl; intros H.
  - now rewrite Ascii.eqb_refl.
  - apply orb_false_iff in H as [Hc Hp]. now rewrite Hc, (IH Hp).
Qed.

(** Splitting what was joined gives the pieces back, when there is at least
    one piece and none holds the separator. *)
Lemma split_join sep ps :
  ps <> [] -> Forall (fun p => contains sep p = false) ps ->
  split sep (join sep ps) = ps.
Proof.
  induction ps as [|p ps IH]; intros Hne Hclean; [contradiction|].
  inversion Hclean as [|? ? Hp Hps]; subst.
  destruct ps as [|q qs].
  - simpl. now apply split_clean.
  - change (join sep (p :: q :: qs))
      with (p ++ String sep (join sep (q :: qs)))%string.
    rewrite split_append_sep by exact Hp.
    rewrite IH; [reflexivity | discriminate | exact Hps].
Qed.

(** Joining pieces with [sep] brings in no other character. *)
Lemma contains_join x sep ps :
  Ascii.eqb sep x = false ->
  Forall (fun p => contains x p = false) ps ->
  contains x (join sep ps) = false.
Proof.
  intros Hx. induction ps as [|p ps IH]; intros Hclean; [reflexivity|].
  inversion Hclean as [|? ? Hp Hps]; subst.
  destruct ps as [|q qs]; [exact Hp|].
  change (join sep (p :: q :: qs))
      with (p ++ String sep (join sep (q :: qs)))%string.
  rewrite contains_append, Hp. simpl. rewrite Hx. now apply IH.
Qed.

(** What was stripped of [x] does not hold [x], and stripping a string that
    does not hold [x] changes nothing. *)
Lemma contains_strip x s : contains x (strip x s) = false.
Proof.
  induction s as [|c rest IH]; simpl; [reflexivity|].
  destruct (Ascii.eqb c x) eqn:E; [exact IH|]. simpl. now rewrite E.
Qed.

Lemma strip_without x s : contains x s = false -> strip x s = s.
Proof.
  induction s as [|c rest IH]; simpl; [reflexivity|].
  intros H. apply orb_false_iff in H as [Hc Hr]. now rewrite Hc, (IH Hr).
Qed.

End JsString.


(* ===================================================================== *)
(** ** The clipboard view ([src/js/view/clipboard.js]) *)
(* ===================================================================== *)

Module Clipboard.

Local Open Scope Z_scope.

(** *** Values exchanged with the models *)

(** A row key or a column name: [(number|string)], or unset. *)
Inductive Ident :=
| INum (n : Z)
| IStr (s : string)
| INull
| IUndefined.

(** [{rowKey, columnName}], as returned by [focusModel.which()] and by
    [nextAddress()] / [prevAddress()]. *)
Record Address := { rowKey : Ident; columnName : Ident }.

(** [{row, column}]: positional indices. *)
Record Index := { row : Z; column : Z }.

(** [selectionModel.get('range')]: [{row: [r0, r1], column: [c0, c1]}]. *)
Record Range := { range_row : Z * Z; range_column : Z * Z }.

(** The object given to [renderModel.set]; a deleted property is [None]. *)
Record ScrollPosition := { scrollTop : option Z; scrollLeft : option Z }.

(** An entry of [columnModel.getVisibleColumnModelList()]. *)
Record ColumnModel := { cm_columnName : Ident }.

(** The fields of a key-down event that the view reads. *)
Record KeyEvent := {
  keyCode : Z;
  which : Z;
  shiftKey : bool;
  ctrlKey : bool;
  metaKey : bool
}.

(** An element of the array built by [_getProcessClipBoardData]: a row of
    the clipboard text that is still a string, or one already split into
    its cells. *)
Definition JsRow : Type := string + list string.

(** [constMap.keyCode] and [constMap.selectionType]: the tables live in
    [common/constMap], outside the files at hand, and are taken as
    parameters. *)
Record KeyCodeMap := {
  UP_ARROW : Z; DOWN_ARROW : Z; LEFT_ARROW : Z; RIGHT_ARROW : Z;
  PAGE_UP : Z; PAGE_DOWN : Z; HOME : Z; END : Z;
  SPACE : Z; ENTER : Z; DEL : Z; TAB : Z;
  CHAR_A : Z; CHAR_C : Z; CHAR_V : Z
}.

Record SelectionType := { COLUMN : string; ROW : string }.

(** *** Calls made on other objects

    Every method the view invokes on an object it does not own (the models,
    the event, [window.clipboardData], the selection of its textarea) is
    recorded, in order. *)
Inductive Call :=
| FocusFocus (rowKey columnName : Ident) (isScrollable : bool)
| FocusFocusAt (rowIdx columnIdx : Z) (isScrollable : bool)
| FocusFocusIn (rowKey columnName : Ident) (isScrollable : bool)
| FocusRefreshState
| SelectionEnd
| SelectionSelectAll
| SelectionUpdate (rowIdx columnIdx : Z)
| DataPaste (data : list JsRow) (startIdx : Index)
| DataDel (rowKey columnName : Ident)
| DataDelRange (range : option Range)
| RenderSet (pos : ScrollPosition)
| PreventDefault
| ClipboardSetData (text : string)
| ElSelect.

(** The collaborators of the view.  Their code is not part of the view, so
    they are an interface: a state [World], the effect [exec] of each call on
    it, and the queries the view makes. *)
Record Models := {
  World : Type;
  exec : Call -> World -> World;
  (* focusModel *)
  focus_which : World -> Address;
  focus_indexOf : World -> Index;
  focus_prevRowKey : World -> Ident;
  focus_nextRowKey : World -> Ident;
  focus_firstRowKey : World -> Ident;
  focus_lastRowKey : World -> Ident;
  focus_prevColumnName : World -> Ident;
  focus_nextColumnName : World -> Ident;
  focus_firstColumnName : World -> Ident;
  focus_lastColumnName : World -> Ident;
  focus_nextAddress : World -> Address;
  focus_prevAddress : World -> Address;
  (* dataModel *)
  data_indexOfRowKey : Ident -> World -> Z;
  data_length : World -> Z;
  data_getRowData : Z -> World -> bool;
  data_getValueString : Ident -> Ident -> World -> string;
  (* columnModel *)
  column_indexOfColumnName : Ident -> bool -> World -> Z;
  column_getVisibleColumnModelList : World -> list ColumnModel;
  (* coordRowModel, dimensionModel, coordConverterModel *)
  coordRow_getOffsetAt : Z -> World -> Z;
  coordRow_indexOf : Z -> World -> Z;
  dimension_bodyHeight : World -> Z;
  coordConverter_getScrollPosition : Z -> Ident -> World -> option ScrollPosition;
  (* selectionModel *)
  selection_range : World -> option Range;
  selection_hasSelection : World -> bool;
  selection_getStartIndex : World -> Index;
  selection_getType : World -> string;
  selection_getValuesToString : bool -> World -> string;
  (* renderModel, window *)
  render_formattedValue : Ident -> Ident -> World -> string;
  window_clipboardData : World -> bool;
  (* common/util *)
  util_isBlank : Ident -> bool;
  util_clamp : Z -> Z -> Z -> Z
}.

(** *** State of the view *)

(** The closure bound to ['keyup'] by [_pasteWhenKeyupCharV]. *)
Inductive Handler := PasteOnKeyup.

(** What a pending timer runs. *)
Inductive Callback := CbUnlock | CbRefreshState.

Record Timer := { tid : nat; due : nat; callback : Callback }.

(** *** A grid to run the view on *)

(** The key codes browsers report. *)
Definition domKeyCodes : KeyCodeMap :=
  {| UP_ARROW := 38; DOWN_ARROW := 40; LEFT_ARROW := 37; RIGHT_ARROW := 39;
     PAGE_UP := 33; PAGE_DOWN := 34; HOME := 36; END := 35;
     SPACE := 32; ENTER := 13; DEL := 46; TAB := 9;
     CHAR_A := 65; CHAR_C := 67; CHAR_V := 86 |}.

Definition selectionTypes : SelectionType :=
  {| COLUMN := "COLUMN"; ROW := "ROW" |}.

(** A still picture of the models: where the focus is, what is selected,
    how many rows and which visible columns there are. *)
Record Desk := {
  desk_focus : Address;
  desk_index : Index;
  desk_range : option Range;
  desk_rows : Z;
  desk_columns : list ColumnModel
}.

Definition range_start (r : option Range) : Index :=
  match r with
  | Some r => {| row := fst (range_row r); column := fst (range_column r) |}
  | None => {| row := 0; column := 0 |}
  end.

(** Collaborators that answer from the picture and ignore every call. *)
Definition deskModels : Models :=
  {| World := Desk;
     exec := fun _ w => w;
     focus_which := desk_focus;
     focus_indexOf := desk_index;
     focus_prevRowKey := fun w => rowKey (desk_focus w);
     focus_nextRowKey := fun w => rowKey (desk_focus w);
     focus_firstRowKey := fun w => rowKey (desk_focus w);
     focus_lastRowKey := fun w => rowKey (desk_focus w);
     focus_prevColumnName := fun w => columnName (desk_focus w);
     focus_nextColumnName := fun w => columnName (desk_focus w);
     focus_firstColumnName := fun w => columnName (desk_focus w);
     focus_lastColumnName := fun w => columnName (desk_focus w);
     focus_nextAddress := desk_focus;
     focus_prevAddress := desk_focus;
     data_indexOfRowKey := fun _ w => row (desk_index w);
     data_length := desk_rows;
     data_getRowData := fun i w => (0 <=? i) && (i <? desk_rows w);
     data_getValueString := fun _ _ _ => "";
     column_indexOfColumnName := fun _ _ w => column (desk_index w);
     column_getVisibleColumnModelList := desk_columns;
     coordRow_getOffsetAt := fun i _ => i;
     coordRow_indexOf := fun o _ => o;
     dimension_bodyHeight := fun _ => 1;
     coordConverter_getScrollPosition := fun _ _ _ => None;
     selection_range := desk_range;
     selection_hasSelection :=
       fun w => match desk_range w with Some _ => true | None => false end;
     selection_getStartIndex := fun w => range_start (desk_range w);
     selection_getType := fun _ => "CELL";
     selection_getValuesToString := fun _ _ => "";
     render_formattedValue := fun _ _ _ => "";
     window_clipboardData := fun _ => false;
     util_isBlank :=
       fun k => match k with
                | IStr s => String.eqb s ""
                | INull | IUndefined => true
                | INum _ => false
                end;
     util_clamp := fun v lo hi => Z.max lo (Z.min v hi) |}.

(** Eleven rows, one column, the focus on row 8, every row selected (as
    after Ctrl+A). *)
Definition desk_all_selected : Desk :=
  {| desk_focus := {| rowKey := INum 8; columnName := IStr "c1" |};
     desk_index := {| row := 8; column := 0 |};
     desk_range := Some {| range_row := (0, 10); range_column := (0, 0) |};
     desk_rows := 11;
     desk_columns := [ {| cm_columnName := IStr "c1" |} ] |}.

(** Rows 8 to 10 selected, the focus on row 8, a corner of the selection. *)
Definition desk_corner : Desk :=
  {| desk_focus := {| rowKey := INum 8; columnName := IStr "c1" |};
     desk_index := {| row := 8; column := 0 |};
     desk_range := Some {| range_row := (8, 10); range_column := (0, 0) |};
     desk_rows := 11;
     desk_columns := [ {| cm_columnName := IStr "c1" |} ] |}.

(** The same grid with the focus on the first row and nothing selected. *)
Definition desk_idle : Desk :=
  {| desk_focus := {| rowKey := INum 0; columnName := IStr "c1" |};
     desk_index := {| row := 0; column := 0 |};
     desk_range := None;
     desk_rows := 11;
     desk_columns := [ {| cm_columnName := IStr "c1" |} ] |}.

Definition key (code : Z) (shift ctrl : bool) : KeyEvent :=
  {| keyCode := code; which := code; shiftKey := shift; ctrlKey := ctrl;
     metaKey := false |}.

(** The text ["a<carriage return><newline>b"]. *)
Definition crlf_text : string :=
  String "a" (String JsString.carriage_return (String JsString.newline "b")).

(** The text ["a<tab>b<newline>c"]. *)
Definition sample_text : string :=
  String "a" (String JsString.tab (String "b" (String JsString.newline "c"))).

(** The collaborators of [deskModels], with a converter that always has a
    scroll position and a selection of the column type. *)
Definition scrollModels : Models :=
  {| World := Desk;
     exec := fun _ w => w;
     focus_which := desk_focus;
     focus_indexOf := desk_index;
     focus_prevRowKey := fun w => rowKey (desk_focus w);
     focus_nextRowKey := fun w => rowKey (desk_focus w);
     focus_firstRowKey := fun w => rowKey (desk_focus w);
     focus_lastRowKey := fun w => rowKey (desk_focus w);
     focus_prevColumnName := fun w => columnName (desk_focus w);
     focus_nextColumnName := fun w => columnName (desk_focus w);
     focus_firstColumnName := fun w => columnName (desk_focus w);
     focus_lastColumnName := fun w => columnName (desk_focus w);
     focus_nextAddress := desk_focus;
     focus_prevAddress := desk_focus;
     data_indexOfRowKey := fun _ w => row (desk_index w);
     data_length := desk_rows;
     data_getRowData := fun i w => (0 <=? i) && (i <? desk_rows w);
     data_getValueString := fun _ _ _ => "";
     column_indexOfColumnName := fun _ _ w => column (desk_index w);
     column_getVisibleColumnModelList := desk_columns;
     coordRow_getOffsetAt := fun i _ => i;
     coordRow_indexOf := fun o _ => o;
     dimension_bodyHeight := fun _ => 1;
     coordConverter_getScrollPosition :=
       fun i _ _ => Some {| scrollTop := Some (i * 30); scrollLeft := Some 0 |};
     selection_range := desk_range;
     selection_hasSelection :=
       fun w => match desk_range w with Some _ => true | None => false end;
     selection_getStartIndex := fun w => range_start (desk_range w);
     selection_getType := fun _ => "COLUMN";
     selection_getValuesToString := fun _ _ => "";
     render_formattedValue := fun _ _ _ => "";
     window_clipboardData := fun _ => false;
     util_isBlank :=
       fun k => match k with
                | IStr s => String.eqb s ""
                | INull | IUndefined => true
                | INum _ => false
                end;
     util_clamp := fun v lo hi => Z.max lo (Z.min v hi) |}.

Section View.

Context (M : Models) (K : KeyCodeMap) (T : SelectionType).

Record St := {
  (* own properties *)
  useFormattedValue : bool;
  timeoutIdForKeyIn : nat;
  isLocked : bool;
  pasting : bool;
  (* this.$el, the textarea.  [el_val] is what [this.$el.val()] returns:
     jQuery gives the value of the element without its carriage returns. *)
  el_val : string;
  el_keyup : list Handler;
  el_reads : nat;
  (* the event loop *)
  now : nat;
  timers : list Timer;
  nextTimerId : nat;
  (* everything else *)
  world : World M;
  log : list Call
}.

Definition set_lock (id : nat) (b : bool) (s : St) : St :=
  {| useFormattedValue := useFormattedValue s; timeoutIdForKeyIn := id;
     isLocked := b; pasting := pasting s; el_val := el_val s;
     el_keyup := el_keyup s; el_reads := el_reads s; now := now s;
     timers := timers s; nextTimerId := nextTimerId s; world := world s;
     log := log s |}.

Definition set_pasting (b : bool) (s : St) : St :=
  {| useFormattedValue := useFormattedValue s;
     timeoutIdForKeyIn := timeoutIdForKeyIn s; isLocked := isLocked s;
     pasting := b; el_val := el_val s; el_keyup := el_keyup s;
     el_reads := el_reads s; now := now s; timers := timers s;
     nextTimerId := nextTimerId s; world := world s; log := log s |}.

Definition set_el (v : string) (hs : list Handler) (reads : nat) (s : St) : St :=
  {| useFormattedValue := useFormattedValue s;
     timeoutIdForKeyIn := timeoutIdForKeyIn s; isLocked := isLocked s;
     pasting := pasting s; el_val := v; el_keyup := hs; el_reads := reads;
     now := now s; timers := timers s; nextTimerId := nextTimerId s;
     world := world s; log := log s |}.

Definition set_loop (t : nat) (q : list Timer) (next : nat) (s : St) : St :=
  {| useFormattedValue := useFormattedValue s;
     timeoutIdForKeyIn := timeoutIdForKeyIn s; isLocked := isLocked s;
     pasting := pasting s; el_val := el_val s; el_keyup := el_keyup s;
     el_reads := el_reads s; now := t; timers := q; nextTimerId := next;
     world := world s; log := log s |}.

(** Invoke a method on a collaborator: it acts on the world and is logged. *)
Definition call (c : Call) (s : St) : St :=
  {| useFormattedValue := useFormattedValue s;
     timeoutIdForKeyIn := timeoutIdForKeyIn s; isLocked := isLocked s;
     pasting := pasting s; el_val := el_val s; el_keyup := el_keyup s;
     el_reads := el_reads s; now := now s; timers := timers s;
     nextTimerId := nextTimerId s; world := exec M c (world s);
     log := log s ++ [c] |}.

(** The view as [initialize] leaves it ([this.pasting] is still undefined,
    hence falsy). *)
Definition initialize (useFormatted : bool) (w : World M) : St :=
  {| useFormattedValue := useFormatted; timeoutIdForKeyIn := 0%nat;
     isLocked := false; pasting := false; el_val := ""; el_keyup := [];
     el_reads := 0%nat; now := 0%nat; timers := []; nextTimerId := 1%nat;
     world := w; log := [] |}.

(** *** Timers: [setTimeout] and [clearTimeout] *)

(** The queue is kept in firing order: by due time, then by age. *)
Fixpoint insert_timer (x : Timer) (q : list Timer) : list Timer :=
  match q with
  | [] => [x]
  | y :: q' =>
      if (due x <? due y)%nat then x :: y :: q' else y :: insert_timer x q'
  end.

Definition setTimeout (cb : Callback) (delay : nat) (s : St) : nat * St :=
  let id := nextTimerId s in
  (id,
   set_loop (now s)
     (insert_timer {| tid := id; due := (now s + delay)%nat; callback := cb |}
        (timers s))
     (S id) s).

Definition clearTimeout (id : nat) (s : St) : St :=
  set_loop (now s)
    (List.filter (fun x => negb (tid x =? id)%nat) (timers s))
    (nextTimerId s) s.

(** *** The methods of the view *)

(** [keyDownEvent.keyCode || keyDownEvent.which]: the first operand unless it
    is falsy, that is, zero. *)
Definition keyCodeOf (e : KeyEvent) : Z :=
  if keyCode e =? 0 then which e else keyCode e.

(** [array[i]] for a numeric index: undefined outside the array. *)
Definition array_get {A} (l : list A) (i : Z) : option A :=
  if i <? 0 then None else l !! Z.to_nat i.

Definition _onBlur (s : St) : St :=
  snd (setTimeout CbRefreshState 0 s).

Definition _lock (s : St) : St :=
  let s1 := clearTimeout (timeoutIdForKeyIn s) s in
  let s2 := set_lock (timeoutIdForKeyIn s1) true s1 in
  let '(id, s3) := setTimeout CbUnlock 10 s2 in
  set_lock id (isLocked s3) s3.

Definition _unlock (s : St) : St :=
  set_lock (timeoutIdForKeyIn s) false s.

Definition _onEnterSpace (rowKey columnName : Ident) (s : St) : St :=
  call (FocusFocusIn rowKey columnName false) s.

Definition _del (s : St) : St :=
  let focused := focus_which M (world s) in
  if selection_hasSelection M (world s)
  then call (DataDelRange (selection_range M (world s))) s
  else call (DataDel (rowKey focused) (columnName focused)) s.

Definition _getIndexBeforeMove (s : St) : Index :=
  let focusedIndex := focus_indexOf M (world s) in
  match selection_range M (world s) with
  | Some selectionRange =>
      let selectionRowRange := range_row selectionRange in
      let selectionColumnRange := range_column selectionRange in
      {| row := if snd selectionRowRange >? row focusedIndex
                then snd selectionRowRange else fst selectionRowRange;
         column := if snd selectionColumnRange >? column focusedIndex
                   then snd selectionColumnRange
                   else fst selectionColumnRange |}
  | None => focusedIndex
  end.

Definition _getPageMovedRowIndex (rowIdx : Z) (isDownDir : bool) (s : St) : Z :=
  let curOffset := coordRow_getOffsetAt M rowIdx (world s) in
  let distance := dimension_bodyHeight M (world s) in
  let distance := if isDownDir then distance else - distance in
  let movedIdx := coordRow_indexOf M (curOffset + distance) (world s) in
  util_clamp M movedIdx 0 (data_length M (world s) - 1).

Definition _updateSelectionByKeyIn (rowIndex columnIndex : Z) (s : St) : St :=
  call (SelectionUpdate rowIndex columnIndex) s.

(** The [switch] of [_keyIn]: the state after the matching case, and
    [isKeyIdentified]. *)
Definition _keyIn_switch (keyCode : Z) (s : St) : bool * St :=
  let w := world s in
  let focused := focus_which M w in
  let rowKey := rowKey focused in
  let columnName := columnName focused in
  let rowIdx := data_indexOfRowKey M rowKey w in
  let columnIdx := column_indexOfColumnName M columnName true w in
  if keyCode =? UP_ARROW K then
    (true, call (FocusFocus (focus_prevRowKey M w) columnName true) s)
  else if keyCode =? DOWN_ARROW K then
    (true, call (FocusFocus (focus_nextRowKey M w) columnName true) s)
  else if keyCode =? LEFT_ARROW K then
    (true, call (FocusFocus rowKey (focus_prevColumnName M w) true) s)
  else if keyCode =? RIGHT_ARROW K then
    (true, call (FocusFocus rowKey (focus_nextColumnName M w) true) s)
  else if keyCode =? PAGE_UP K then
    (true, call (FocusFocusAt (_getPageMovedRowIndex rowIdx false s)
                   columnIdx true) s)
  else if keyCode =? PAGE_DOWN K then
    (true, call (FocusFocusAt (_getPageMovedRowIndex rowIdx true s)
                   columnIdx true) s)
  else if keyCode =? HOME K then
    (true, call (FocusFocus rowKey (focus_firstColumnName M w) true) s)
  else if keyCode =? END K then
    (true, call (FocusFocus rowKey (focus_lastColumnName M w) true) s)
  else if (keyCode =? SPACE K) || (keyCode =? ENTER K) then
    (true, _onEnterSpace rowKey columnName s)
  else if keyCode =? DEL K then
    (true, _del s)
  else if keyCode =? TAB K then
    let address := focus_nextAddress M w in
    (true, call (FocusFocusIn (Clipboard.rowKey address)
                   (Clipboard.columnName address) true) s)
  else (false, s).

Definition _keyIn (keyDownEvent : KeyEvent) (s : St) : St :=
  let focused := focus_which M (world s) in
  let keyCode := keyCodeOf keyDownEvent in
  if util_isBlank M (rowKey focused) then s
  else
    let '(isKeyIdentified, s1) := _keyIn_switch keyCode s in
    let s2 := if isKeyIdentified then call PreventDefault s1 else s1 in
    call SelectionEnd s2.

(** The [switch] of [_keyInWithShift]: the moved [index], [isSelection],
    [isKeyIdentified], and the state (only the Tab case changes it). *)
Definition _keyInWithShift_switch (keyCode : Z) (index : Index) (s : St)
  : Index * bool * bool * St :=
  let columnModelList := column_getVisibleColumnModelList M (world s) in
  if keyCode =? UP_ARROW K then
    ({| row := row index - 1; column := column index |}, true, true, s)
  else if keyCode =? DOWN_ARROW K then
    ({| row := row index + 1; column := column index |}, true, true, s)
  else if keyCode =? LEFT_ARROW K then
    ({| row := row index; column := column index - 1 |}, true, true, s)
  else if keyCode =? RIGHT_ARROW K then
    ({| row := row index; column := column index + 1 |}, true, true, s)
  else if keyCode =? PAGE_UP K then
    ({| row := _getPageMovedRowIndex (row index) false s;
        column := column index |}, true, true, s)
  else if keyCode =? PAGE_DOWN K then
    ({| row := _getPageMovedRowIndex (row index) true s;
        column := column index |}, true, true, s)
  else if keyCode =? HOME K then
    ({| row := row index; column := 0 |}, true, true, s)
  else if keyCode =? END K then
    ({| row := row index;
        column := Z.of_nat (length columnModelList) - 1 |}, true, true, s)
  else if keyCode =? ENTER K then
    (index, false, true, s)
  else if keyCode =? TAB K then
    let address := focus_prevAddress M (world s) in
    (index, false, true,
     call (FocusFocusIn (rowKey address) (columnName address) true) s)
  else (index, false, false, s).

Definition _keyInWithShift (keyDownEvent : KeyEvent) (s : St) : St :=
  let columnModelList := column_getVisibleColumnModelList M (world s) in
  let keyCode := keyCodeOf keyDownEvent in
  let index := _getIndexBeforeMove s in
  let '(index, isSelection, isKeyIdentified, s1) :=
    _keyInWithShift_switch keyCode index s in
  let columnModel := array_get columnModelList (column index) in
  let s2 :=
    match columnModel with
    | Some columnModel =>
        if isSelection && data_getRowData M (row index) (world s1) then
          let s' := _updateSelectionByKeyIn (row index) (column index) s1 in
          match coordConverter_getScrollPosition M (row index)
                  (cm_columnName columnModel) (world s') with
          | Some scrollPosition =>
              let selectionType := selection_getType M (world s') in
              let scrollPosition :=
                if String.eqb selectionType (COLUMN T) then
                  {| scrollTop := None;
                     scrollLeft := scrollLeft scrollPosition |}
                else if String.eqb selectionType (ROW T) then
                  {| scrollTop := scrollTop scrollPosition;
                     scrollLeft := None |}
                else scrollPosition in
              call (RenderSet scrollPosition) s'
          | None => s'
          end
        else s1
    | None => s1
    end in
  if isKeyIdentified then call PreventDefault s2 else s2.

Definition _clearClipBoard (s : St) : St :=
  set_el "" (el_keyup s) (el_reads s) s.

Definition _pasteWhenKeyupCharV (s : St) : St :=
  let s1 := _clearClipBoard s in
  if pasting s1 then s1
  else
    let s2 := set_pasting true s1 in
    set_el (el_val s2) (el_keyup s2 ++ [PasteOnKeyup]) (el_reads s2) s2.

(** The loop of [_getProcessClipBoardData]: [result[i] = result[i].split('\t')]
    for [i] from its start value up to [len], [fuel] being the number of
    turns left. *)
Fixpoint split_rows (fuel i : nat) (result : list JsRow) : list JsRow :=
  match fuel with
  | O => result
  | S fuel' =>
      let result' :=
        match result !! i with
        | Some (inl line) =>
            <[ i := inr (JsString.split JsString.tab line) ]> result
        | _ => result
        end in
      split_rows fuel' (S i) result'
  end.

(** [_getProcessClipBoardData], as a function of the text read from the
    textarea. *)
Definition processClipBoardData (text : string) : list JsRow :=
  let result := List.map inl (JsString.split JsString.newline text) in
  let len := length result in
  split_rows len 0 result.

Definition _getProcessClipBoardData (s : St) : list JsRow * St :=
  let text := el_val s in
  (processClipBoardData text, set_el (el_val s) (el_keyup s) (S (el_reads s)) s).

Definition _pasteToGrid (s : St) : St :=
  let startIdx :=
    if selection_hasSelection M (world s)
    then selection_getStartIndex M (world s)
    else focus_indexOf M (world s) in
  let '(data, s1) := _getProcessClipBoardData s in
  let s2 := set_el (el_val s1) [] (el_reads s1) s1 in
  call (DataPaste data startIdx) s2.

Definition _getClipboardString (s : St) : string :=
  let focused := focus_which M (world s) in
  if selection_hasSelection M (world s) then
    selection_getValuesToString M (useFormattedValue s) (world s)
  else if useFormattedValue s then
    render_formattedValue M (rowKey focused) (columnName focused) (world s)
  else
    data_getValueString M (rowKey focused) (columnName focused) (world s).

Definition _copyToClipboard (s : St) : St :=
  let text := _getClipboardString s in
  if window_clipboardData M (world s) then call (ClipboardSetData text) s
  else
    call ElSelect
      (set_el (JsString.strip JsString.carriage_return text) (el_keyup s)
         (el_reads s) s).

Definition _keyInWithCtrl (keyDownEvent : KeyEvent) (s : St) : St :=
  let w := world s in
  let keyCode := keyCodeOf keyDownEvent in
  if keyCode =? CHAR_A K then call SelectionSelectAll s
  else if keyCode =? CHAR_C K then _copyToClipboard s
  else if keyCode =? HOME K then
    call (FocusFocus (focus_firstRowKey M w) (focus_firstColumnName M w) true) s
  else if keyCode =? END K then
    call (FocusFocus (focus_lastRowKey M w) (focus_lastColumnName M w) true) s
  else if keyCode =? CHAR_V K then _pasteWhenKeyupCharV s
  else s.

Definition _keyInWithShiftAndCtrl (keyDownEvent : KeyEvent) (s : St) : St :=
  let columnModelList := column_getVisibleColumnModelList M (world s) in
  let keyCode := keyCodeOf keyDownEvent in
  let '(isKeyIdentified, s1) :=
    if keyCode =? HOME K then (true, _updateSelectionByKeyIn 0 0 s)
    else if keyCode =? END K then
      (true, _updateSelectionByKeyIn (data_length M (world s) - 1)
               (Z.of_nat (length columnModelList) - 1) s)
    else (false, s) in
  if isKeyIdentified then call PreventDefault s1 else s1.

(** The four-way branch of [_onKeyDown] on the modifier keys. *)
Definition dispatch (keyDownEvent : KeyEvent) (s : St) : St :=
  if shiftKey keyDownEvent && (ctrlKey keyDownEvent || metaKey keyDownEvent)
  then _keyInWithShiftAndCtrl keyDownEvent s
  else if shiftKey keyDownEvent then _keyInWithShift keyDownEvent s
  else if ctrlKey keyDownEvent || metaKey keyDownEvent
  then _keyInWithCtrl keyDownEvent s
  else _keyIn keyDownEvent s.

Definition _onKeyDown (keyDownEvent : KeyEvent) (s : St) : St :=
  if isLocked s then call PreventDefault s
  else _lock (dispatch keyDownEvent s).

(** *** Events *)

Definition run_handler (h : Handler) (s : St) : St :=
  match h with
  | PasteOnKeyup => set_pasting false (_pasteToGrid s)
  end.

Definition run_callback (cb : Callback) (s : St) : St :=
  match cb with
  | CbUnlock => _unlock s
  | CbRefreshState => call FocusRefreshState s
  end.

(** What reaches the textarea: the keys, a blur, and the text the browser
    puts into it (the default action of a paste); [text] is the value the
    element then has, carriage returns included. *)
Inductive DomEvent :=
| Keydown (e : KeyEvent)
| Keyup
| Blur
| Input (text : string).

(** jQuery runs the handlers that were bound when the event was triggered.
    After an input, [this.$el.val()] returns the new value without its
    carriage returns. *)
Definition handle (ev : DomEvent) (s : St) : St :=
  match ev with
  | Keydown e => _onKeyDown e s
  | Keyup => fold_left (fun acc h => run_handler h acc) (el_keyup s) s
  | Blur => _onBlur s
  | Input text =>
      set_el (JsString.strip JsString.carriage_return text) (el_keyup s)
        (el_reads s) s
  end.

Definition is_due (t : nat) (x : Timer) : bool := (due x <=? t)%nat.

(** Let the clock reach [t]: the timers due by then run, in queue order. *)
Definition advance (t : nat) (s : St) : St :=
  let fired := List.filter (is_due t) (timers s) in
  let pending := List.filter (fun x => negb (is_due t x)) (timers s) in
  fold_left (fun acc x => run_callback (callback x) acc) fired
    (set_loop (Nat.max (now s) t) pending (nextTimerId s) s).

(** An event that arrives at time [t]. *)
Definition deliver (t : nat) (ev : DomEvent) (s : St) : St :=
  handle ev (advance t s).

Fixpoint run (evs : list (nat * DomEvent)) (s : St) : St :=
  match evs with
  | [] => s
  | (t, ev) :: rest => run rest (deliver t ev s)
  end.

(** *** Notions used in the statements *)

(** The clip matrix in the design document's words: the text split on
    newline, each row then split on tab. *)
Definition clipMatrix (text : string) : list (list string) :=
  List.map (JsString.split JsString.tab)
    (JsString.split JsString.newline text).

(** *** What is observed of a state *)

Definition is_paste (c : Call) : bool :=
  match c with DataPaste _ _ => true | _ => false end.

Definition count_pastes (l : list Call) : nat :=
  length (List.filter is_paste l).

(** How many times the row data store was asked to paste. *)
Definition pastes (s : St) : nat := count_pastes (log s).

(** The part of the state that the paste pipeline lives in. *)
Definition pst (s : St) : bool * list Handler * nat * nat :=
  (pasting s, el_keyup s, el_reads s, count_pastes (log s)).

(** The part of the state that the re-entrancy lock lives in. *)
Definition clk (s : St) : bool * nat * nat * list Timer * nat :=
  (isLocked s, timeoutIdForKeyIn s, now s, timers s, nextTimerId s).

Definition is_unlock (x : Timer) : bool :=
  match callback x with CbUnlock => true | CbRefreshState => false end.

(** The paste pipeline is armed: one closure waits for a key-up. *)
Definition armed (s : St) : Prop :=
  pasting s = true /\ el_keyup s = [PasteOnKeyup].

Definition unarmed (s : St) : Prop :=
  pasting s = false /\ el_keyup s = [].

(** Only the timer whose id the view remembers can unlock it. *)
Definition lock_wf (s : St) : Prop :=
  forall x, In x (timers s) -> is_unlock x = true ->
            tid x = timeoutIdForKeyIn s.

(** A key-down that reaches the [CHAR_V] case of [_keyInWithCtrl]. *)
Definition is_ctrl_v (e : KeyEvent) : Prop :=
  shiftKey e = false
  /\ ctrlKey e || metaKey e = true
  /\ keyCodeOf e = CHAR_V K
  /\ CHAR_V K <> CHAR_A K /\ CHAR_V K <> CHAR_C K
  /\ CHAR_V K <> HOME K /\ CHAR_V K <> END K.

Definition is_keydown (ev : nat * DomEvent) : bool :=
  match snd ev with Keydown _ => true | _ => false end.

Definition is_keyup (ev : nat * DomEvent) : bool :=
  match snd ev with Keyup => true | _ => false end.

(** The keys that the [switch] of [_keyIn] has a case for. *)
Definition keyIn_identifies (keyCode : Z) : bool :=
  existsb (Z.eqb keyCode)
    [UP_ARROW K; DOWN_ARROW K; LEFT_ARROW K; RIGHT_ARROW K; PAGE_UP K;
     PAGE_DOWN K; HOME K; END K; SPACE K; ENTER K; DEL K; TAB K].

(** *** Anchors of a keyboard selection *)

(** [a] is the end of the inclusive interval [rr] that lies farthest from
    [f]. *)
Definition farthest_end (a : Z) (rr : Z * Z) (f : Z) : Prop :=
  (a = fst rr \/ a = snd rr)
  /\ Z.abs (fst rr - f) <= Z.abs (a - f)
  /\ Z.abs (snd rr - f) <= Z.abs (a - f).

(** [f] lies strictly between the two ends of [rr]. *)
Definition strictly_inside (f : Z) (rr : Z * Z) : Prop :=
  fst rr < f < snd rr.

(** The rule as the design document words it: with a selection, each
    coordinate of the anchor is the end of the selection farthest from the
    focus; without one, the anchor is the focus. *)
Definition anchor_is_farthest_corner (s : St) : Prop :=
  match selection_range M (world s) with
  | Some r =>
      farthest_end (row (_getIndexBeforeMove s)) (range_row r)
        (row (focus_indexOf M (world s)))
      /\ farthest_end (column (_getIndexBeforeMove s)) (range_column r)
           (column (focus_indexOf M (world s)))
  | None => _getIndexBeforeMove s = focus_indexOf M (world s)
  end.

(** Where a shift-modified arrow key takes an index. *)
Definition arrow_move (keyCode : Z) (index : Index) : option Index :=
  if keyCode =? UP_ARROW K then
    Some {| row := row index - 1; column := column index |}
  else if keyCode =? DOWN_ARROW K then
    Some {| row := row index + 1; column := column index |}
  else if keyCode =? LEFT_ARROW K then
    Some {| row := row index; column := column index - 1 |}
  else if keyCode =? RIGHT_ARROW K then
    Some {| row := row index; column := column index + 1 |}
  else None.

(** Where a paste starts. *)
Definition pasteOrigin (w : World M) : Index :=
  if selection_hasSelection M w then selection_getStartIndex M w
  else focus_indexOf M w.

(** The timer that [_lock] sets. *)
Definition lock_timer (s : St) : Timer :=
  {| tid := nextTimerId s; due := (now s + 10)%nat; callback := CbUnlock |}.

(** *** Further notions: the text of a matrix, counting calls *)

(** The text of a clip matrix: the cells of a row joined by tabs, the rows
    by newlines. *)
Definition clipText (m : list (list string)) : string :=
  JsString.join JsString.newline (List.map (JsString.join JsString.tab) m).

(** A cell that holds neither a tab nor a newline. *)
Definition cleanCell (c : string) : Prop :=
  JsString.contains JsString.tab c = false
  /\ JsString.contains JsString.newline c = false.

(** How many calls of a kind a log holds. *)
Definition count_calls (P : Call -> bool) (l : list Call) : nat :=
  length (List.filter P l).

(** How many key-ups a run holds. *)
Definition count_keyups (evs : list (nat * DomEvent)) : nat :=
  length (List.filter is_keyup evs).

(** An event that cannot change the textarea: a key-down with Shift or
    without Ctrl and Meta, or a blur. *)
Definition ev_keeps_text (ev : nat * DomEvent) : bool :=
  match snd ev with
  | Keydown e => shiftKey e || negb (ctrlKey e || metaKey e)
  | Blur => true
  | Keyup | Input _ => false
  end.

(** *** Further notions: which key does what *)

Definition is_delete (c : Call) : bool :=
  match c with DataDel _ _ | DataDelRange _ => true | _ => false end.

Definition is_prevent (c : Call) : bool :=
  match c with PreventDefault => true | _ => false end.

Definition is_refresh (c : Call) : bool :=
  match c with FocusRefreshState => true | _ => false end.

(** No modifier key is held. *)
Definition plain (e : KeyEvent) : bool :=
  negb (shiftKey e) && negb (ctrlKey e || metaKey e).

(** The [switch] of [_keyIn] takes its [DEL] case: no earlier case has the
    same code. *)
Definition keyIn_deletes (keyCode : Z) : bool :=
  negb (existsb (Z.eqb keyCode)
          [UP_ARROW K; DOWN_ARROW K; LEFT_ARROW K; RIGHT_ARROW K; PAGE_UP K;
           PAGE_DOWN K; HOME K; END K; SPACE K; ENTER K])
  && (keyCode =? DEL K).

(** The key-down reaches [_del]. *)
Definition deletes (e : KeyEvent) (s : St) : bool :=
  negb (isLocked s) && plain e
  && negb (util_isBlank M (rowKey (focus_which M (world s))))
  && keyIn_deletes (keyCodeOf e).

(** The keys that the [switch] of [_keyInWithShift], of
    [_keyInWithShiftAndCtrl] and of [_keyInWithCtrl] have a case for. *)
Definition shift_identifies (keyCode : Z) : bool :=
  existsb (Z.eqb keyCode)
    [UP_ARROW K; DOWN_ARROW K; LEFT_ARROW K; RIGHT_ARROW K; PAGE_UP K;
     PAGE_DOWN K; HOME K; END K; ENTER K; TAB K].

Definition shiftCtrl_identifies (keyCode : Z) : bool :=
  existsb (Z.eqb keyCode) [HOME K; END K].

Definition ctrl_acts (keyCode : Z) : bool :=
  existsb (Z.eqb keyCode) [CHAR_A K; CHAR_C K; HOME K; END K; CHAR_V K].

(** The handler that [_onKeyDown] picks has a case for the key. *)
Definition recognized (e : KeyEvent) : bool :=
  if shiftKey e && (ctrlKey e || metaKey e)
  then shiftCtrl_identifies (keyCodeOf e)
  else if shiftKey e then shift_identifies (keyCodeOf e)
  else if ctrlKey e || metaKey e then ctrl_acts (keyCodeOf e)
  else keyIn_identifies (keyCodeOf e).

(** The handler that [_onKeyDown] picks prevents the default action. *)
Definition intercepts (e : KeyEvent) (s : St) : bool :=
  if shiftKey e && (ctrlKey e || metaKey e)
  then shiftCtrl_identifies (keyCodeOf e)
  else if shiftKey e then shift_identifies (keyCodeOf e)
  else if ctrlKey e || metaKey e then false
  else negb (util_isBlank M (rowKey (focus_which M (world s))))
       && keyIn_identifies (keyCodeOf e).

(** Where a shift-modified navigation key takes an index: the eight cases of
    [_keyInWithShift] that select. *)
Definition shift_move (keyCode : Z) (index : Index) (s : St) : option Index :=
  if keyCode =? UP_ARROW K then
    Some {| row := row index - 1; column := column index |}
  else if keyCode =? DOWN_ARROW K then
    Some {| row := row index + 1; column := column index |}
  else if keyCode =? LEFT_ARROW K then
    Some {| row := row index; column := column index - 1 |}
  else if keyCode =? RIGHT_ARROW K then
    Some {| row := row index; column := column index + 1 |}
  else if keyCode =? PAGE_UP K then
    Some {| row := _getPageMovedRowIndex (row index) false s;
            column := column index |}
  else if keyCode =? PAGE_DOWN K then
    Some {| row := _getPageMovedRowIndex (row index) true s;
            column := column index |}
  else if keyCode =? HOME K then Some {| row := row index; column := 0 |}
  else if keyCode =? END K then
    Some {| row := row index;
            column :=
              Z.of_nat (length (column_getVisibleColumnModelList M (world s)))
              - 1 |}
  else None.

(** The lock and its timer agree: no timer that unlocks pends while the
    view is unlocked; while it is locked exactly one does, the one whose id
    the view remembers, due at most 10 ms from now. *)
Definition lock_inv (s : St) : Prop :=
  match List.filter is_unlock (timers s) with
  | [] => isLocked s = false
  | [x] =>
      isLocked s = true /\ tid x = timeoutIdForKeyIn s
      /\ (due x <= now s + 10)%nat
  | _ => False
  end.

(* --------------------------------------------------------------------- *)
(** *** Properties of the view *)
(* --------------------------------------------------------------------- *)

(** **** The clip matrix *)

Lemma split_rows_spec done rest :
  split_rows (length rest) (length done) (done ++ List.map inl rest)
  = done ++ List.map (fun line => inr (JsString.split JsString.tab line)) rest.
Proof.
  revert done. induction rest as [|line rest IH]; intros done; simpl.
  - reflexivity.
  - rewrite list_lookup_middle by reflexivity.
    replace (length done) with (length done + 0)%nat at 2 by lia.
    rewrite insert_app_r. simpl.
    specialize (IH (done ++ [inr (JsString.split JsString.tab line)])).
    rewrite length_app in IH. simpl in IH.
    replace (length done + 1)%nat with (S (length done)) in IH by lia.
    rewrite <- !app_assoc in IH. simpl in IH. exact IH.
Qed.

Lemma processClipBoardData_spec text :
  processClipBoardData text = List.map inr (clipMatrix text).
Proof.
  unfold processClipBoardData, clipMatrix.
  rewrite length_map.
  pose proof (split_rows_spec [] (JsString.split JsString.newline text)) as H.
  simpl in H. rewrite H. now rewrite List.map_map.
Qed.

(** Every row of a clip matrix has at least one cell. *)
Lemma clipMatrix_rows_nonempty text : Forall (fun r => r <> []) (clipMatrix text).
Proof.
  unfold clipMatrix. apply List.Forall_forall. intros r Hr.
  apply in_map_iff in Hr as (line & <- & _). apply JsString.split_nonempty.
Qed.

(** **** Keys without and with Shift *)

Lemma keyIn_switch_identified k s :
  fst (_keyIn_switch k s) = keyIn_identifies k.
Proof.
  unfold _keyIn_switch, keyIn_identifies. simpl.
  repeat (match goal with |- context [k =? ?c] => destruct (k =? c) end;
          simpl; try reflexivity).
Qed.

(** Each case of the [switch] makes exactly one call; the default none. *)
Lemma keyIn_switch_log k s :
  exists acts,
    log (snd (_keyIn_switch k s)) = log s ++ acts
    /\ length acts = (if keyIn_identifies k then 1 else 0)%nat.
Proof.
  unfold _keyIn_switch, keyIn_identifies, _onEnterSpace, _del. simpl.
  repeat (match goal with |- context [k =? ?c] => destruct (k =? c) end;
          simpl; try (eexists [_]; split; reflexivity)).
  - destruct (selection_hasSelection M (world s));
      simpl; eexists [_]; split; reflexivity.
  - exists []. now rewrite app_nil_r.
Qed.

Lemma keyInWithShift_switch_arrow k index index' s :
  arrow_move k index = Some index' ->
  _keyInWithShift_switch k index s = (index', true, true, s).
Proof.
  unfold arrow_move, _keyInWithShift_switch.
  repeat (match goal with |- context [k =? ?c] => destruct (k =? c) end;
          [intros [= <-]; reflexivity|]).
  discriminate.
Qed.

(** A shift-modified arrow key that lands on an existing cell asks the
    selection model to extend to the moved index, before anything else. *)
Lemma keyInWithShift_arrow_update e s index' cm :
  arrow_move (keyCodeOf e) (_getIndexBeforeMove s) = Some index' ->
  array_get (column_getVisibleColumnModelList M (world s)) (column index')
  = Some cm ->
  data_getRowData M (row index') (world s) = true ->
  exists rest,
    log (_keyInWithShift e s)
    = log s ++ SelectionUpdate (row index') (column index') :: rest.
Proof.
  intros Hmove Hcol Hrow. unfold _keyInWithShift.
  rewrite (keyInWithShift_switch_arrow _ _ _ s Hmove).
  rewrite Hcol, Hrow. cbn [andb]. unfold _updateSelectionByKeyIn.
  destruct (coordConverter_getScrollPosition M (row index') (cm_columnName cm)
              (world (call (SelectionUpdate (row index') (column index')) s)))
    as [pos|]; eexists; cbn [log call]; rewrite <- ?app_assoc; reflexivity.
Qed.

Lemma farthest_end_outside (rr : Z * Z) (f : Z) :
  fst rr <= snd rr -> ~ strictly_inside f rr ->
  farthest_end (if snd rr >? f then snd rr else fst rr) rr f.
Proof.
  unfold strictly_inside, farthest_end. intros Hle Hout.
  destruct (snd rr >? f) eqn:E.
  - apply Z.gtb_lt in E. lia.
  - assert (snd rr <= f) by (rewrite Z.gtb_ltb in E; apply Z.ltb_ge in E; lia).
    lia.
Qed.

(** C7: every string read from the textarea becomes the clip matrix by a
    split on newline followed by a split of each row on tab; the empty
    string gives one row holding one empty cell, so that a paste from a
    textarea that was cleared and never filled is a paste of that single
    empty cell. *)
Theorem clip_matrix_newline_then_tab :
  (forall s : St,
      fst (_getProcessClipBoardData s) = List.map inr (clipMatrix (el_val s)))
  /\ processClipBoardData "" = [inr [""]]
  /\ (forall s : St,
         log (_pasteToGrid (_clearClipBoard s))
         = log s ++ [DataPaste [inr [""]] (pasteOrigin (world s))]).
Proof.
  split; [|split].
  - intros s. apply processClipBoardData_spec.
  - reflexivity.
  - intros s. reflexivity.
Qed.

(** What the closure bound to key-up does, in one step. *)
Lemma run_handler_log (s : St) :
  log (run_handler PasteOnKeyup s)
  = log s ++ [DataPaste (processClipBoardData (el_val s)) (pasteOrigin (world s))]
  /\ world (run_handler PasteOnKeyup s)
     = exec M (DataPaste (processClipBoardData (el_val s))
                 (pasteOrigin (world s))) (world s).
Proof. split; reflexivity. Qed.

(** C10: a key-down without modifiers returns at once, changing nothing and
    suppressing nothing, when the focused row key is blank; otherwise the
    case of the key makes its one call (none for an unknown key), the
    default action is prevented exactly for a known key, and the last call
    is always [selectionModel.end()]. *)
Theorem keyIn_blank_returns_else_ends_selection (e : KeyEvent) (s : St) :
  if util_isBlank M (rowKey (focus_which M (world s)))
  then _keyIn e s = s
  else
    exists acts s',
      _keyIn e s = call SelectionEnd s'
      /\ log (_keyIn e s)
         = log s ++ acts
             ++ (if keyIn_identifies (keyCodeOf e) then [PreventDefault] else [])
             ++ [SelectionEnd]
      /\ length acts = (if keyIn_identifies (keyCodeOf e) then 1 else 0)%nat.
Proof.
  unfold _keyIn.
  destruct (util_isBlank M (rowKey (focus_which M (world s)))); [reflexivity|].
  pose proof (keyIn_switch_identified (keyCodeOf e) s) as Hid.
  destruct (keyIn_switch_log (keyCodeOf e) s) as (acts & Hlog & Hlen).
  destruct (_keyIn_switch (keyCodeOf e) s) as [b s1]. simpl in Hid, Hlog.
  subst b. exists acts.
  destruct (keyIn_identifies (keyCodeOf e)); eexists; (split; [reflexivity|]);
    split; try assumption; cbn [log call]; rewrite Hlog;
    rewrite <- ?app_assoc; reflexivity.
Qed.

(** **** What each method leaves of the paste pipeline *)

Lemma count_pastes_app l1 l2 :
  count_pastes (l1 ++ l2) = (count_pastes l1 + count_pastes l2)%nat.
Proof. unfold count_pastes. now rewrite List.filter_app, length_app. Qed.

Lemma pst_call c s : is_paste c = false -> pst (call c s) = pst s.
Proof.
  intros Hc. unfold pst. cbn [call pasting el_keyup el_reads log].
  rewrite count_pastes_app. unfold count_pastes at 2. cbn [List.filter].
  rewrite Hc. cbn [length]. now rewrite Nat.add_0_r.
Qed.

Ltac case_conditions :=
  repeat match goal with
         | |- context [if ?b then _ else _] => destruct b
         | |- context [match ?o with Some _ => _ | None => _ end] => destruct o
         end.

Ltac frame_pst :=
  case_conditions; rewrite ?pst_call by reflexivity; try reflexivity.

Lemma keyIn_switch_pst k s : pst (snd (_keyIn_switch k s)) = pst s.
Proof.
  unfold _keyIn_switch, _onEnterSpace, _del. cbn zeta.
  case_conditions; cbn [snd]; rewrite ?pst_call by reflexivity; reflexivity.
Qed.

Lemma keyIn_pst e s : pst (_keyIn e s) = pst s.
Proof.
  unfold _keyIn. cbn zeta.
  destruct (util_isBlank M _); [reflexivity|].
  pose proof (keyIn_switch_pst (keyCodeOf e) s) as H.
  destruct (_keyIn_switch (keyCodeOf e) s) as [b s1]. cbn [snd] in H.
  destruct b; rewrite ?pst_call by reflexivity; exact H.
Qed.

Lemma keyInWithShift_switch_pst k index s :
  pst (snd (_keyInWithShift_switch k index s)) = pst s.
Proof.
  unfold _keyInWithShift_switch. cbn zeta.
  case_conditions; cbn [snd]; rewrite ?pst_call by reflexivity; reflexivity.
Qed.

Lemma keyInWithShift_pst e s : pst (_keyInWithShift e s) = pst s.
Proof.
  unfold _keyInWithShift, _updateSelectionByKeyIn. cbn zeta.
  pose proof (keyInWithShift_switch_pst (keyCodeOf e) (_getIndexBeforeMove s) s)
    as H.
  destruct (_keyInWithShift_switch (keyCodeOf e) (_getIndexBeforeMove s) s)
    as [[[index isSelection] isKeyIdentified] s1].
  cbn [snd] in H.
  case_conditions; rewrite ?pst_call by reflexivity; exact H.
Qed.

Lemma keyInWithShiftAndCtrl_pst e s : pst (_keyInWithShiftAndCtrl e s) = pst s.
Proof.
  unfold _keyInWithShiftAndCtrl, _updateSelectionByKeyIn. cbn zeta.
  frame_pst.
Qed.

(** With a paste armed, no key pressed with Ctrl touches the pipeline. *)
Lemma keyInWithCtrl_pst_armed e s :
  pasting s = true -> pst (_keyInWithCtrl e s) = pst s.
Proof.
  intros Hp.
  unfold _keyInWithCtrl, _copyToClipboard, _pasteWhenKeyupCharV,
    _clearClipBoard. cbn zeta. cbn [pasting set_el]. rewrite Hp.
  frame_pst.
Qed.

(** Without the [CHAR_V] case, neither does it when no paste is armed. *)
Lemma keyInWithCtrl_pst_other e s :
  keyCodeOf e <> CHAR_V K -> pst (_keyInWithCtrl e s) = pst s.
Proof.
  intros Hk. unfold _keyInWithCtrl, _copyToClipboard. cbn zeta.
  destruct (keyCodeOf e =? CHAR_V K) eqn:E; [apply Z.eqb_eq in E; contradiction|].
  frame_pst.
Qed.

Lemma lock_pst s : pst (_lock s) = pst s.
Proof. reflexivity. Qed.

Lemma dispatch_pst_armed e s : pasting s = true -> pst (dispatch e s) = pst s.
Proof.
  intros Hp. unfold dispatch.
  case_conditions;
    auto using keyInWithShiftAndCtrl_pst, keyInWithShift_pst,
      keyInWithCtrl_pst_armed, keyIn_pst.
Qed.

Lemma run_callbacks_pst (l : list Timer) s0 :
  pst (fold_left (fun acc x => run_callback (callback x) acc) l s0) = pst s0.
Proof.
  revert s0. induction l as [|x l IH]; intros s0; [reflexivity|].
  cbn [fold_left]. rewrite IH.
  destruct (callback x); cbn [run_callback];
    [reflexivity | now rewrite pst_call].
Qed.

Lemma advance_pst t s : pst (advance t s) = pst s.
Proof. unfold advance. now rewrite run_callbacks_pst. Qed.

Lemma onKeyDown_pst_armed e s :
  pasting s = true -> pst (_onKeyDown e s) = pst s.
Proof.
  intros Hp. unfold _onKeyDown.
  destruct (isLocked s); [now rewrite pst_call|].
  rewrite lock_pst. now apply dispatch_pst_armed.
Qed.

Lemma pst_pasting s s' : pst s' = pst s -> pasting s' = pasting s.
Proof. unfold pst. congruence. Qed.

Lemma pst_armed s s' : pst s' = pst s -> armed s -> armed s'.
Proof. unfold pst, armed. intros [= -> -> _ _]. auto. Qed.

Lemma pst_unarmed s s' : pst s' = pst s -> unarmed s -> unarmed s'.
Proof. unfold pst, unarmed. intros [= -> -> _ _]. auto. Qed.

Lemma pst_pastes s s' : pst s' = pst s -> pastes s' = pastes s.
Proof. unfold pst, pastes. congruence. Qed.

Lemma pst_reads s s' : pst s' = pst s -> el_reads s' = el_reads s.
Proof. unfold pst. congruence. Qed.

(** An event other than a key-up leaves an armed pipeline as it is. *)
Lemma deliver_pst_armed t ev s :
  armed s -> is_keyup (t, ev) = false -> pst (deliver t ev s) = pst s.
Proof.
  intros Harmed Hev. unfold deliver.
  rewrite <- (advance_pst t s).
  assert (pasting (advance t s) = true) as Hp.
  { rewrite (pst_pasting _ _ (advance_pst t s)). apply Harmed. }
  destruct ev as [e| | |text]; cbn [handle].
  - now apply onKeyDown_pst_armed.
  - discriminate.
  - reflexivity.
  - reflexivity.
Qed.

(** An event other than a key-down leaves an idle pipeline as it is. *)
Lemma deliver_pst_unarmed t ev s :
  unarmed s -> is_keydown (t, ev) = false -> pst (deliver t ev s) = pst s.
Proof.
  intros Hun Hev. unfold deliver.
  rewrite <- (advance_pst t s).
  assert (el_keyup (advance t s) = []) as Hk.
  { pose proof (pst_unarmed _ _ (advance_pst t s) Hun) as [_ H]. exact H. }
  destruct ev as [e| | |text]; cbn [handle].
  - discriminate.
  - now rewrite Hk.
  - reflexivity.
  - reflexivity.
Qed.

(** The first key-up of an armed pipeline reads the textarea once, asks for
    one paste, and unbinds the closure. *)
Lemma deliver_keyup_armed t s :
  armed s ->
  unarmed (deliver t Keyup s)
  /\ pastes (deliver t Keyup s) = S (pastes s)
  /\ el_reads (deliver t Keyup s) = S (el_reads s).
Proof.
  intros Harmed.
  pose proof (advance_pst t s) as Hadv.
  pose proof (pst_armed _ _ Hadv Harmed) as [Hp Hk].
  unfold deliver. cbn [handle]. rewrite Hk. cbn [fold_left run_handler].
  unfold unarmed, pastes, _pasteToGrid.
  cbn [_getProcessClipBoardData set_pasting set_el call pasting el_keyup
       el_reads log fst snd].
  rewrite count_pastes_app.
  rewrite (pst_reads _ _ Hadv).
  fold (pastes (advance t s)). rewrite (pst_pastes _ _ Hadv).
  unfold count_pastes. cbn [List.filter is_paste length].
  repeat split; unfold pastes, count_pastes; lia.
Qed.

(** C8: when a key-up reaches an armed view, the row data store is asked,
    once, to paste the matrix read from the textarea, and the origin of that
    paste is the selection's start index if the selection model reports a
    selection at that moment, and the focused index otherwise. *)
Theorem paste_origin_selection_start_or_focus (s : St) (t : nat) :
  armed s ->
  let s0 := advance t s in
  let origin :=
    if selection_hasSelection M (world s0)
    then selection_getStartIndex M (world s0)
    else focus_indexOf M (world s0) in
  log (deliver t Keyup s)
  = log s0 ++ [DataPaste (processClipBoardData (el_val s0)) origin]
  /\ world (deliver t Keyup s)
     = exec M (DataPaste (processClipBoardData (el_val s0)) origin) (world s0).
Proof.
  intros Harmed s0 origin.
  pose proof (pst_armed _ _ (advance_pst t s) Harmed) as [_ Hk].
  unfold deliver. cbn [handle]. fold s0 in Hk |- *. rewrite Hk.
  cbn [fold_left]. apply run_handler_log.
Qed.

Lemma run_pst_armed evs s :
  armed s -> forallb (fun ev => negb (is_keyup ev)) evs = true ->
  pst (run evs s) = pst s.
Proof.
  revert s. induction evs as [|[t ev] evs IH]; intros s Harmed Hevs;
    [reflexivity|].
  cbn [forallb] in Hevs. apply andb_true_iff in Hevs as [Hev Hevs].
  apply negb_true_iff in Hev.
  pose proof (deliver_pst_armed t ev s Harmed Hev) as Hd.
  cbn [run]. rewrite IH; [exact Hd | exact (pst_armed _ _ Hd Harmed) | exact Hevs].
Qed.

Lemma run_pst_unarmed evs s :
  unarmed s -> forallb (fun ev => negb (is_keydown ev)) evs = true ->
  pst (run evs s) = pst s.
Proof.
  revert s. induction evs as [|[t ev] evs IH]; intros s Hun Hevs;
    [reflexivity|].
  cbn [forallb] in Hevs. apply andb_true_iff in Hevs as [Hev Hevs].
  apply negb_true_iff in Hev.
  pose proof (deliver_pst_unarmed t ev s Hun Hev) as Hd.
  cbn [run]. rewrite IH; [exact Hd | exact (pst_unarmed _ _ Hd Hun) | exact Hevs].
Qed.

Lemma run_app evs1 evs2 s : run (evs1 ++ evs2) s = run evs2 (run evs1 s).
Proof.
  revert s. induction evs1 as [|[t ev] evs1 IH]; intros s; [reflexivity|].
  cbn [app run]. apply IH.
Qed.

Lemma dispatch_ctrl_v e s : is_ctrl_v e -> dispatch e s = _pasteWhenKeyupCharV s.
Proof.
  intros (Hshift & Hctrl & Hkey & HA & HC & HH & HE).
  unfold dispatch, _keyInWithCtrl. cbn zeta.
  rewrite Hshift, Hctrl, Hkey. cbn [andb].
  rewrite (proj2 (Z.eqb_neq _ _) HA), (proj2 (Z.eqb_neq _ _) HC),
    (proj2 (Z.eqb_neq _ _) HH), (proj2 (Z.eqb_neq _ _) HE), Z.eqb_refl.
  reflexivity.
Qed.

Lemma pasteWhenKeyupCharV_arms s :
  unarmed s ->
  armed (_pasteWhenKeyupCharV s)
  /\ pastes (_pasteWhenKeyupCharV s) = pastes s
  /\ el_reads (_pasteWhenKeyupCharV s) = el_reads s.
Proof.
  intros [Hp Hk]. unfold _pasteWhenKeyupCharV, _clearClipBoard, armed.
  cbn [pasting set_el]. rewrite Hp.
  cbn. rewrite Hk. repeat split.
Qed.

(** In every state the view can reach, the paste is either armed, with its
    one closure bound, or idle, with none. *)
Lemma keyInWithCtrl_armed_or_unarmed e s :
  unarmed s -> armed (_keyInWithCtrl e s) \/ unarmed (_keyInWithCtrl e s).
Proof.
  intros Hun. unfold _keyInWithCtrl. cbn zeta.
  destruct (keyCodeOf e =? CHAR_A K);
    [right; apply (pst_unarmed s); [now apply pst_call | exact Hun]|].
  destruct (keyCodeOf e =? CHAR_C K).
  { right. apply (pst_unarmed s); [|exact Hun].
    unfold _copyToClipboard. frame_pst. }
  destruct (keyCodeOf e =? HOME K);
    [right; apply (pst_unarmed s); [now apply pst_call | exact Hun]|].
  destruct (keyCodeOf e =? END K);
    [right; apply (pst_unarmed s); [now apply pst_call | exact Hun]|].
  destruct (keyCodeOf e =? CHAR_V K); [|now right].
  left. now apply pasteWhenKeyupCharV_arms.
Qed.

Lemma deliver_armed_or_unarmed t ev s :
  armed s \/ unarmed s -> armed (deliver t ev s) \/ unarmed (deliver t ev s).
Proof.
  intros [Harmed|Hun].
  - destruct ev as [e| | |text].
    + left. exact (pst_armed _ _ (deliver_pst_armed t (Keydown e) s Harmed eq_refl)
                     Harmed).
    + right. now apply deliver_keyup_armed.
    + left. exact (pst_armed _ _ (deliver_pst_armed t Blur s Harmed eq_refl) Harmed).
    + left. exact (pst_armed _ _ (deliver_pst_armed t (Input text) s Harmed eq_refl)
                     Harmed).
  - destruct ev as [e| | |text].
    + pose proof (pst_unarmed _ _ (advance_pst t s) Hun) as Hun0.
      unfold deliver. cbn [handle]. unfold _onKeyDown.
      destruct (isLocked (advance t s)).
      { right. apply (pst_unarmed (advance t s)); [now apply pst_call | exact Hun0]. }
      assert (armed (dispatch e (advance t s)) \/ unarmed (dispatch e (advance t s)))
        as [Ha|Hu].
      { unfold dispatch.
        destruct (shiftKey e && (ctrlKey e || metaKey e));
          [right; exact (pst_unarmed _ _ (keyInWithShiftAndCtrl_pst e _) Hun0)|].
        destruct (shiftKey e);
          [right; exact (pst_unarmed _ _ (keyInWithShift_pst e _) Hun0)|].
        destruct (ctrlKey e || metaKey e);
          [now apply keyInWithCtrl_armed_or_unarmed|].
        right. exact (pst_unarmed _ _ (keyIn_pst e _) Hun0). }
      * left. exact (pst_armed _ _ (lock_pst _) Ha).
      * right. exact (pst_unarmed _ _ (lock_pst _) Hu).
    + right. exact (pst_unarmed _ _ (deliver_pst_unarmed t Keyup s Hun eq_refl) Hun).
    + right. exact (pst_unarmed _ _ (deliver_pst_unarmed t Blur s Hun eq_refl) Hun).
    + right. exact (pst_unarmed _ _ (deliver_pst_unarmed t (Input text) s Hun eq_refl)
                      Hun).
Qed.

Lemma run_armed_or_unarmed evs b w :
  armed (run evs (initialize b w)) \/ unarmed (run evs (initialize b w)).
Proof.
  assert (forall s, armed s \/ unarmed s -> armed (run evs s) \/ unarmed (run evs s))
    as H.
  { induction evs as [|[t ev] evs IH]; intros s Hs; [exact Hs|].
    cbn [run]. apply IH. now apply deliver_armed_or_unarmed. }
  apply H. right. split; reflexivity.
Qed.

(** C3: once a Ctrl+V key-down has armed the paste, exactly one closure is
    bound to key-up; no later key-down binds another while the paste is
    armed; nothing is read or pasted before a key-up arrives; and the first
    key-up reads the textarea once, pastes once and unbinds the closure, so
    that whatever key-ups follow read and paste nothing more. *)
Theorem ctrl_v_pastes_once (s : St) (e : KeyEvent) (t0 : nat) :
  unarmed s -> is_ctrl_v e -> isLocked (advance t0 s) = false ->
  let s1 := deliver t0 (Keydown e) s in
  armed s1 /\ pastes s1 = pastes s /\ el_reads s1 = el_reads s
  /\ (forall t e', el_keyup (deliver t (Keydown e') s1) = [PasteOnKeyup])
  /\ (forall before,
         forallb (fun ev => negb (is_keyup ev)) before = true ->
         armed (run before s1)
         /\ pastes (run before s1) = pastes s
         /\ el_reads (run before s1) = el_reads s)
  /\ (forall before t after,
         forallb (fun ev => negb (is_keyup ev)) before = true ->
         forallb (fun ev => negb (is_keydown ev)) after = true ->
         let s2 := run (before ++ (t, Keyup) :: after) s1 in
         el_keyup s2 = [] /\ pasting s2 = false
         /\ pastes s2 = S (pastes s) /\ el_reads s2 = S (el_reads s)).
Proof.
  intros Hun Hv Hunlocked s1.
  assert (armed s1 /\ pastes s1 = pastes s /\ el_reads s1 = el_reads s)
    as (Harmed & Hpastes & Hreads).
  { subst s1. unfold deliver. cbn [handle]. unfold _onKeyDown.
    rewrite Hunlocked, (dispatch_ctrl_v _ _ Hv).
    pose proof (advance_pst t0 s) as Hadv.
    destruct (pasteWhenKeyupCharV_arms (advance t0 s) (pst_unarmed _ _ Hadv Hun))
      as (Ha & Hp & Hr).
    pose proof (lock_pst (_pasteWhenKeyupCharV (advance t0 s))) as Hl.
    split; [exact (pst_armed _ _ Hl Ha)|].
    rewrite (pst_pastes _ _ Hl), (pst_reads _ _ Hl), Hp, Hr.
    now rewrite (pst_pastes _ _ Hadv), (pst_reads _ _ Hadv). }
  assert (forall before,
             forallb (fun ev => negb (is_keyup ev)) before = true ->
             armed (run before s1)
             /\ pastes (run before s1) = pastes s
             /\ el_reads (run before s1) = el_reads s) as Hbefore.
  { intros before Hb. pose proof (run_pst_armed before s1 Harmed Hb) as Hr.
    split; [exact (pst_armed _ _ Hr Harmed)|].
    now rewrite (pst_pastes _ _ Hr), (pst_reads _ _ Hr). }
  split; [exact Harmed|]. split; [exact Hpastes|]. split; [exact Hreads|].
  split.
  { intros t e'.
    pose proof (deliver_pst_armed t (Keydown e') s1 Harmed eq_refl) as Hd.
    apply (pst_armed _ _ Hd Harmed). }
  split; [exact Hbefore|].
  intros before t after Hb Hafter s2.
  destruct (Hbefore before Hb) as (Harmed' & Hbp & Hbr).
  destruct (deliver_keyup_armed t _ Harmed') as (Hu & Hp & Hr).
  pose proof (run_pst_unarmed after _ Hu Hafter) as Ha.
  assert (s2 = run after (deliver t Keyup (run before s1))) as ->.
  { subst s2. now rewrite run_app. }
  destruct (pst_unarmed _ _ Ha Hu) as [Hp2 Hk2].
  rewrite (pst_pastes _ _ Ha), (pst_reads _ _ Ha), Hp, Hr, Hbp, Hbr.
  repeat split; assumption.
Qed.

(** **** The lock and its timer *)

Ltac frame_clk := case_conditions; reflexivity.

Lemma keyIn_clk e s : clk (_keyIn e s) = clk s.
Proof.
  unfold _keyIn, _keyIn_switch, _onEnterSpace, _del. cbn zeta. frame_clk.
Qed.

Lemma keyInWithShift_clk e s : clk (_keyInWithShift e s) = clk s.
Proof.
  unfold _keyInWithShift, _keyInWithShift_switch, _updateSelectionByKeyIn.
  cbn zeta. frame_clk.
Qed.

Lemma keyInWithCtrl_clk e s : clk (_keyInWithCtrl e s) = clk s.
Proof.
  unfold _keyInWithCtrl, _copyToClipboard, _pasteWhenKeyupCharV,
    _clearClipBoard. cbn zeta. frame_clk.
Qed.

Lemma keyInWithShiftAndCtrl_clk e s : clk (_keyInWithShiftAndCtrl e s) = clk s.
Proof.
  unfold _keyInWithShiftAndCtrl, _updateSelectionByKeyIn. cbn zeta. frame_clk.
Qed.

(** No branch of the dispatch touches the lock or the timers. *)
Lemma dispatch_clk e s : clk (dispatch e s) = clk s.
Proof.
  unfold dispatch.
  case_conditions;
    auto using keyIn_clk, keyInWithShift_clk, keyInWithCtrl_clk,
      keyInWithShiftAndCtrl_clk.
Qed.

Lemma In_insert_timer x y q : In y (insert_timer x q) <-> y = x \/ In y q.
Proof.
  induction q as [|z q IH]; cbn [insert_timer].
  - cbn. intuition congruence.
  - destruct (due x <? due z)%nat; cbn [In]; [intuition congruence|].
    rewrite IH. intuition congruence.
Qed.

Lemma lock_fields s :
  isLocked (_lock s) = true
  /\ timeoutIdForKeyIn (_lock s) = nextTimerId s
  /\ now (_lock s) = now s
  /\ timers (_lock s)
     = insert_timer (lock_timer s)
         (List.filter (fun x => negb (tid x =? timeoutIdForKeyIn s)%nat)
            (timers s)).
Proof. repeat split. Qed.

(** After [_lock], the one timer that can unlock is the one just set. *)
Lemma lock_only_timer s x :
  lock_wf s -> In x (timers (_lock s)) -> is_unlock x = true ->
  x = lock_timer s.
Proof.
  intros Hwf Hin Hun.
  destruct (lock_fields s) as (_ & _ & _ & Ht). rewrite Ht in Hin.
  apply In_insert_timer in Hin as [->|Hin]; [reflexivity|].
  apply filter_In in Hin as [Hin Hne].
  rewrite (Hwf x Hin Hun), Nat.eqb_refl in Hne. discriminate.
Qed.

Lemma lock_wf_lock s : lock_wf s -> lock_wf (_lock s).
Proof.
  intros Hwf x Hin Hun.
  rewrite (lock_only_timer s x Hwf Hin Hun). reflexivity.
Qed.

Lemma run_callbacks_clk (l : list Timer) s0 :
  let s' := fold_left (fun acc x => run_callback (callback x) acc) l s0 in
  isLocked s' = (if existsb is_unlock l then false else isLocked s0)
  /\ timeoutIdForKeyIn s' = timeoutIdForKeyIn s0
  /\ now s' = now s0 /\ timers s' = timers s0
  /\ nextTimerId s' = nextTimerId s0.
Proof.
  revert s0. induction l as [|x l IH]; intros s0; [repeat split|].
  cbn [fold_left existsb]. cbn zeta in IH |- *.
  destruct (IH (run_callback (callback x) s0)) as (H1 & H2 & H3 & H4 & H5).
  rewrite H1, H2, H3, H4, H5. unfold is_unlock at 2.
  destruct (callback x); cbn [run_callback orb];
    [destruct (existsb is_unlock l)|]; repeat split.
Qed.

Lemma advance_locked t s :
  isLocked (advance t s)
  = if existsb is_unlock (List.filter (is_due t) (timers s))
    then false else isLocked s.
Proof.
  unfold advance.
  destruct (run_callbacks_clk (List.filter (is_due t) (timers s))
              (set_loop (Init.Nat.max (now s) t)
                 (List.filter (fun x => negb (is_due t x)) (timers s))
                 (nextTimerId s) s)) as (H & _).
  exact H.
Qed.

Lemma advance_fields t s :
  timeoutIdForKeyIn (advance t s) = timeoutIdForKeyIn s
  /\ now (advance t s) = Nat.max (now s) t
  /\ timers (advance t s)
     = List.filter (fun x => negb (is_due t x)) (timers s)
  /\ nextTimerId (advance t s) = nextTimerId s.
Proof.
  unfold advance.
  destruct (run_callbacks_clk (List.filter (is_due t) (timers s))
              (set_loop (Init.Nat.max (now s) t)
                 (List.filter (fun x => negb (is_due t x)) (timers s))
                 (nextTimerId s) s)) as (_ & H2 & H3 & H4 & H5).
  repeat split; assumption.
Qed.

Lemma lock_wf_advance t s : lock_wf s -> lock_wf (advance t s).
Proof.
  intros Hwf x Hin Hun.
  destruct (advance_fields t s) as (Hid & _ & Ht & _).
  rewrite Ht in Hin. apply filter_In in Hin as [Hin _].
  rewrite Hid. now apply Hwf.
Qed.

Lemma lock_wf_clk s s' : clk s' = clk s -> lock_wf s -> lock_wf s'.
Proof. unfold clk, lock_wf. intros [= _ -> _ -> _]. auto. Qed.

Lemma lock_wf_initialize b w : lock_wf (initialize b w).
Proof. intros x []. Qed.

Lemma run_handlers_clk (hs : list Handler) s :
  clk (fold_left (fun acc h => run_handler h acc) hs s) = clk s.
Proof.
  revert s. induction hs as [|[] hs IH]; intros s; [reflexivity|].
  cbn [fold_left]. now rewrite IH.
Qed.

(** The invariant holds in every state the view can reach. *)
Lemma lock_wf_deliver t ev s : lock_wf s -> lock_wf (deliver t ev s).
Proof.
  intros Hwf. apply (lock_wf_advance t) in Hwf. unfold deliver.
  destruct ev as [e| | |text]; cbn [handle].
  - unfold _onKeyDown. destruct (isLocked (advance t s)); [exact Hwf|].
    apply lock_wf_lock. exact (lock_wf_clk _ _ (dispatch_clk e _) Hwf).
  - exact (lock_wf_clk _ _ (run_handlers_clk _ _) Hwf).
  - intros x Hin Hun. cbn in Hin. apply In_insert_timer in Hin as [->|Hin];
      [discriminate | now apply Hwf].
  - exact Hwf.
Qed.

Lemma lock_wf_run evs s : lock_wf s -> lock_wf (run evs s).
Proof.
  revert s. induction evs as [|[t ev] evs IH]; intros s Hwf; [exact Hwf|].
  cbn [run]. apply IH. now apply lock_wf_deliver.
Qed.

Lemma onKeyDown_unlocked e s :
  isLocked s = false ->
  isLocked (_onKeyDown e s) = true
  /\ In (lock_timer s) (timers (_onKeyDown e s)).
Proof.
  intros Hun. unfold _onKeyDown. rewrite Hun.
  destruct (lock_fields (dispatch e s)) as (Hl & _ & _ & Ht).
  split; [exact Hl|]. rewrite Ht. apply In_insert_timer. left.
  pose proof (dispatch_clk e s) as Hc. unfold clk in Hc.
  injection Hc as _ _ Hnow _ Hnext. unfold lock_timer. now rewrite Hnow, Hnext.
Qed.

Lemma existsb_unlock_due_false t (q : list Timer) :
  (forall x, In x q -> is_unlock x = true -> (t < due x)%nat) ->
  existsb is_unlock (List.filter (is_due t) q) = false.
Proof.
  intros H. apply not_true_iff_false. intros Hex.
  apply existsb_exists in Hex as (x & Hin & Hun).
  apply filter_In in Hin as [Hin Hdue].
  specialize (H x Hin Hun). unfold is_due in Hdue.
  apply Nat.leb_le in Hdue. lia.
Qed.

(** C4: a key-down that finds the lock set only has its default action
    prevented; one that finds it clear is dispatched and sets the lock
    together with a timer due 10 ms later.  So when a key-down is handled at
    [t1], a second one less than 10 ms later is suppressed, and a third one
    at [t1 + 10] or later is handled again. *)
Theorem keydown_lock_window (s : St) (e1 e2 e3 : KeyEvent) (t1 t2 t3 : nat) :
  lock_wf s ->
  (now s <= t1)%nat -> (t1 <= t2 < t1 + 10)%nat -> (t1 + 10 <= t3)%nat ->
  isLocked (advance t1 s) = false ->
  let s1 := deliver t1 (Keydown e1) s in
  let s2 := deliver t2 (Keydown e2) s1 in
  let s3 := deliver t3 (Keydown e3) s2 in
  (forall e s', isLocked s' = true -> _onKeyDown e s' = call PreventDefault s')
  /\ (forall e s', isLocked s' = false ->
        isLocked (_onKeyDown e s') = true
        /\ In {| tid := nextTimerId s'; due := (now s' + 10)%nat;
                 callback := CbUnlock |} (timers (_onKeyDown e s')))
  /\ s1 = _lock (dispatch e1 (advance t1 s))
  /\ isLocked (advance t2 s1) = true
  /\ s2 = call PreventDefault (advance t2 s1)
  /\ isLocked (advance t3 s2) = false
  /\ s3 = _lock (dispatch e3 (advance t3 s2)).
Proof.
  intros Hwf Hnow Ht2 Ht3 Hfree s1 s2 s3.
  split; [intros e s' Hl; unfold _onKeyDown; now rewrite Hl|].
  split; [intros e s' Hl; exact (onKeyDown_unlocked e s' Hl)|].
  assert (s1 = _lock (dispatch e1 (advance t1 s))) as Hs1.
  { subst s1. unfold deliver. cbn [handle]. unfold _onKeyDown.
    now rewrite Hfree. }
  split; [exact Hs1|].
  set (s0 := dispatch e1 (advance t1 s)) in *.
  assert (lock_wf s0) as Hwf0.
  { exact (lock_wf_clk _ _ (dispatch_clk e1 _) (lock_wf_advance t1 s Hwf)). }
  assert (now s0 = t1) as Hnow0.
  { pose proof (dispatch_clk e1 (advance t1 s)) as Hc. unfold clk in Hc.
    injection Hc as _ _ Hn _ _. subst s0. rewrite Hn.
    destruct (advance_fields t1 s) as (_ & -> & _). lia. }
  assert (forall x, In x (timers s1) -> is_unlock x = true -> due x = (t1 + 10)%nat)
    as Honly.
  { intros x Hin Hun. rewrite Hs1 in Hin.
    rewrite (lock_only_timer s0 x Hwf0 Hin Hun). cbn. now rewrite Hnow0. }
  assert (In (lock_timer s0) (timers s1)) as Hpending.
  { rewrite Hs1. destruct (lock_fields s0) as (_ & _ & _ & ->).
    apply In_insert_timer. now left. }
  assert (isLocked (advance t2 s1) = true) as Hlocked2.
  { rewrite advance_locked, existsb_unlock_due_false.
    - rewrite Hs1. apply lock_fields.
    - intros x Hin Hun. rewrite (Honly x Hin Hun). lia. }
  split; [exact Hlocked2|].
  assert (s2 = call PreventDefault (advance t2 s1)) as Hs2.
  { subst s2. unfold deliver. cbn [handle]. unfold _onKeyDown.
    now rewrite Hlocked2. }
  split; [exact Hs2|].
  assert (isLocked (advance t3 s2) = false) as Hfree3.
  { rewrite advance_locked.
    assert (existsb is_unlock (List.filter (is_due t3) (timers s2)) = true)
      as ->; [|reflexivity].
    apply existsb_exists. exists (lock_timer s0). split; [|reflexivity].
    apply filter_In. split.
    - rewrite Hs2. cbn [timers call].
      destruct (advance_fields t2 s1) as (_ & _ & -> & _).
      apply filter_In. split; [exact Hpending|].
      unfold is_due, lock_timer. cbn [due]. rewrite Hnow0.
      apply negb_true_iff, Nat.leb_gt. lia.
    - unfold is_due, lock_timer. cbn [due]. rewrite Hnow0.
      apply Nat.leb_le. lia. }
  split; [exact Hfree3|].
  subst s3. unfold deliver. cbn [handle]. unfold _onKeyDown. now rewrite Hfree3.
Qed.

(** **** The clip matrix and its text *)

Lemma clipText_clipMatrix text : clipText (clipMatrix text) = text.
Proof.
  unfold clipText, clipMatrix. rewrite List.map_map.
  rewrite (List.map_ext _ (fun line => line)), List.map_id
    by (intros line; apply JsString.join_split).
  apply JsString.join_split.
Qed.

Lemma clipMatrix_clipText (m : list (list string)) :
  m <> [] -> Forall (fun r => r <> [] /\ Forall cleanCell r) m ->
  clipMatrix (clipText m) = m.
Proof.
  intros Hne Hm. unfold clipMatrix, clipText.
  rewrite JsString.split_join.
  - rewrite List.map_map.
    rewrite <- (List.map_id m) at 2. apply List.map_ext_in.
    intros r Hr. rewrite List.Forall_forall in Hm.
    destruct (Hm r Hr) as [Hr0 Hcells].
    apply JsString.split_join; [exact Hr0|].
    eapply List.Forall_impl; [|exact Hcells]. now intros c [Ht _].
  - destruct m; [contradiction | discriminate].
  - apply List.Forall_forall. intros line Hline.
    apply in_map_iff in Hline as (r & <- & Hr).
    rewrite List.Forall_forall in Hm. destruct (Hm r Hr) as [_ Hcells].
    apply JsString.contains_join; [reflexivity|].
    eapply List.Forall_impl; [|exact Hcells]. now intros c [_ Hn].
Qed.

Lemma clipMatrix_cells_clean text :
  Forall (fun r => r <> [] /\ Forall cleanCell r) (clipMatrix text).
Proof.
  unfold clipMatrix. apply List.Forall_forall. intros r Hr.
  apply in_map_iff in Hr as (line & <- & Hline).
  split; [apply JsString.split_nonempty|].
  pose proof (JsString.split_pieces_clean JsString.newline text) as Hlines.
  rewrite List.Forall_forall in Hlines. specialize (Hlines line Hline).
  pose proof (JsString.split_pieces_clean JsString.tab line) as Htab.
  pose proof (JsString.split_pieces_without JsString.newline JsString.tab line
                Hlines) as Hnl.
  rewrite List.Forall_forall in Htab, Hnl.
  apply List.Forall_forall. intros c Hc. split; auto.
Qed.

(** X1: the matrix that [_getProcessClipBoardData] builds loses nothing of
    the text: every element of the result is an array of cells, and joining
    the cells of each row with tabs and the rows with newlines gives the text
    back. *)
Theorem clip_matrix_keeps_the_text (text : string) :
  exists m : list (list string),
    processClipBoardData text = List.map inr m /\ clipText m = text.
Proof.
  exists (clipMatrix text). split.
  - apply processClipBoardData_spec.
  - apply clipText_clipMatrix.
Qed.

(** X2: a matrix with at least one row, whose rows have at least one cell
    and whose cells hold neither tab nor newline, is what
    [_getProcessClipBoardData] builds from its text. *)
Theorem clip_text_parses_back (m : list (list string)) :
  m <> [] -> Forall (fun r => r <> [] /\ Forall cleanCell r) m ->
  processClipBoardData (clipText m) = List.map inr m.
Proof.
  intros Hne Hm. rewrite processClipBoardData_spec.
  now rewrite clipMatrix_clipText.
Qed.

(** X3: whatever the text, the result of [_getProcessClipBoardData] has one
    row more than the text has newlines, so at least one; every row is an
    array with at least one cell; no cell holds a tab or a newline. *)
Theorem clip_matrix_shape (text : string) :
  exists m : list (list string),
    processClipBoardData text = List.map inr m
    /\ length m = S (JsString.occurrences JsString.newline text)
    /\ Forall (fun r => r <> [] /\ Forall cleanCell r) m.
Proof.
  exists (clipMatrix text). split; [apply processClipBoardData_spec|].
  split; [|apply clipMatrix_cells_clean].
  unfold clipMatrix. rewrite length_map. apply JsString.split_length.
Qed.

(** **** Reading and pasting, event by event *)

Lemma keyInWithCtrl_counts e s :
  pastes (_keyInWithCtrl e s) = pastes s
  /\ el_reads (_keyInWithCtrl e s) = el_reads s.
Proof.
  unfold pastes, _keyInWithCtrl, _copyToClipboard, _pasteWhenKeyupCharV,
    _clearClipBoard. cbn zeta.
  case_conditions;
    cbn [log call set_el set_pasting el_reads];
    rewrite ?count_pastes_app; unfold count_pastes; cbn; split; lia.
Qed.

Lemma dispatch_counts e s :
  pastes (dispatch e s) = pastes s /\ el_reads (dispatch e s) = el_reads s.
Proof.
  unfold dispatch.
  destruct (shiftKey e && (ctrlKey e || metaKey e)).
  { pose proof (keyInWithShiftAndCtrl_pst e s) as H.
    split; [exact (pst_pastes _ _ H) | exact (pst_reads _ _ H)]. }
  destruct (shiftKey e).
  { pose proof (keyInWithShift_pst e s) as H.
    split; [exact (pst_pastes _ _ H) | exact (pst_reads _ _ H)]. }
  destruct (ctrlKey e || metaKey e); [apply keyInWithCtrl_counts|].
  pose proof (keyIn_pst e s) as H.
  split; [exact (pst_pastes _ _ H) | exact (pst_reads _ _ H)].
Qed.

Lemma run_handlers_counts (hs : list Handler) s :
  let s' := fold_left (fun acc h => run_handler h acc) hs s in
  pastes s' = (pastes s + length hs)%nat
  /\ el_reads s' = (el_reads s + length hs)%nat.
Proof.
  revert s. induction hs as [|[] hs IH]; intros s; [cbn; split; lia|].
  cbn [fold_left length]. cbn zeta in IH |- *.
  destruct (IH (run_handler PasteOnKeyup s)) as [Hp Hr]. rewrite Hp, Hr.
  unfold pastes. cbn [run_handler _pasteToGrid _getProcessClipBoardData
    set_pasting set_el call log el_reads fst snd].
  rewrite count_pastes_app. unfold count_pastes. cbn. split; lia.
Qed.

Lemma deliver_counts t ev s :
  let n := match ev with Keyup => length (el_keyup s) | _ => 0%nat end in
  pastes (deliver t ev s) = (pastes s + n)%nat
  /\ el_reads (deliver t ev s) = (el_reads s + n)%nat.
Proof.
  cbn zeta. pose proof (advance_pst t s) as Hadv.
  pose proof (pst_pastes _ _ Hadv) as Hp. pose proof (pst_reads _ _ Hadv) as Hr.
  assert (el_keyup (advance t s) = el_keyup s) as Hk
      by (unfold pst in Hadv; congruence).
  unfold deliver. destruct ev as [e| | |text]; cbn [handle].
  - rewrite !Nat.add_0_r, <- Hp, <- Hr. unfold _onKeyDown.
    destruct (isLocked (advance t s)).
    + pose proof (pst_call PreventDefault (advance t s) eq_refl) as H.
      split; [exact (pst_pastes _ _ H) | exact (pst_reads _ _ H)].
    + pose proof (lock_pst (dispatch e (advance t s))) as H.
      rewrite (pst_pastes _ _ H), (pst_reads _ _ H). apply dispatch_counts.
  - rewrite <- Hp, <- Hr, <- Hk. apply run_handlers_counts.
  - rewrite !Nat.add_0_r, <- Hp, <- Hr. split; reflexivity.
  - rewrite !Nat.add_0_r, <- Hp, <- Hr. split; reflexivity.
Qed.

(** X4: the textarea is read and the store asked to paste only when a
    key-up is handled: a key-down of any kind, a blur, an input or a timer
    adds no read and no paste, and a key-up adds one of each for every
    closure bound to key-up at that moment. *)
Theorem only_keyup_reads_and_pastes (t : nat) (ev : DomEvent) (s : St) :
  let n := match ev with Keyup => length (el_keyup s) | _ => 0%nat end in
  pastes (deliver t ev s) = (pastes s + n)%nat
  /\ el_reads (deliver t ev s) = (el_reads s + n)%nat.
Proof. exact (deliver_counts t ev s). Qed.

Lemma armed_or_unarmed_keyups s :
  armed s \/ unarmed s -> (length (el_keyup s) <= 1)%nat.
Proof. intros [[_ ->]|[_ ->]]; cbn; lia. Qed.

Lemma run_counts evs s :
  armed s \/ unarmed s ->
  (armed (run evs s) \/ unarmed (run evs s))
  /\ (pastes (run evs s) <= pastes s + count_keyups evs)%nat
  /\ (el_reads (run evs s) + pastes s = pastes (run evs s) + el_reads s)%nat.
Proof.
  revert s. induction evs as [|[t ev] evs IH]; intros s Hs.
  - cbn [run]. split; [exact Hs|]. unfold count_keyups. cbn. split; lia.
  - cbn [run]. pose proof (deliver_armed_or_unarmed t ev s Hs) as Hs'.
    destruct (IH _ Hs') as (Hinv & Hle & Heq).
    destruct (deliver_counts t ev s) as [Hp Hr].
    pose proof (armed_or_unarmed_keyups s Hs) as Hk.
    split; [exact Hinv|].
    unfold count_keyups in *. cbn [List.filter].
    destruct ev as [e| | |text]; cbn [is_keyup snd length] in *; lia.
Qed.

(** X12: in every state the view reaches from [initialize], whatever the
    events and their times, at most one closure is bound to key-up, and one
    is bound exactly while [pasting] is set; the textarea has been read as
    many times as the store was asked to paste, and that is at most once per
    key-up. *)
Theorem paste_pipeline_invariant
    (evs : list (nat * DomEvent)) (b : bool) (w : World M) :
  let s := run evs (initialize b w) in
  el_keyup s = (if pasting s then [PasteOnKeyup] else [])
  /\ el_reads s = pastes s
  /\ (pastes s <= count_keyups evs)%nat.
Proof.
  cbn zeta.
  destruct (run_counts evs (initialize b w) (or_intror (conj eq_refl eq_refl)))
    as (Hinv & Hle & Heq).
  split; [|split].
  - destruct Hinv as [[-> ->]|[-> ->]]; reflexivity.
  - unfold pastes in *. cbn in Heq, Hle. unfold count_pastes in *. cbn in Heq.
    lia.
  - unfold pastes in *. cbn in Hle. unfold count_pastes in *. cbn in Hle. lia.
Qed.

(** **** The text that a paste reads *)

Lemma run_callbacks_el_val (l : list Timer) s0 :
  el_val (fold_left (fun acc x => run_callback (callback x) acc) l s0)
  = el_val s0.
Proof.
  revert s0. induction l as [|x l IH]; intros s0; [reflexivity|].
  cbn [fold_left]. rewrite IH. now destruct (callback x).
Qed.

Lemma advance_el_val t s : el_val (advance t s) = el_val s.
Proof. unfold advance. now rewrite run_callbacks_el_val. Qed.

Lemma keyIn_el_val e s : el_val (_keyIn e s) = el_val s.
Proof.
  unfold _keyIn, _keyIn_switch, _onEnterSpace, _del. cbn zeta.
  case_conditions; reflexivity.
Qed.

Lemma keyInWithShift_el_val e s : el_val (_keyInWithShift e s) = el_val s.
Proof.
  unfold _keyInWithShift, _keyInWithShift_switch, _updateSelectionByKeyIn.
  cbn zeta. case_conditions; reflexivity.
Qed.

Lemma keyInWithShiftAndCtrl_el_val e s :
  el_val (_keyInWithShiftAndCtrl e s) = el_val s.
Proof.
  unfold _keyInWithShiftAndCtrl, _updateSelectionByKeyIn. cbn zeta.
  case_conditions; reflexivity.
Qed.

Lemma deliver_el_val t ev s :
  ev_keeps_text (t, ev) = true -> el_val (deliver t ev s) = el_val s.
Proof.
  intros Hev. rewrite <- (advance_el_val t s). unfold deliver.
  destruct ev as [e| | |text]; cbn [handle]; try discriminate; [|reflexivity].
  unfold ev_keeps_text in Hev. cbn [snd] in Hev.
  unfold _onKeyDown. destruct (isLocked (advance t s)); [reflexivity|].
  change (el_val (_lock (dispatch e (advance t s))))
    with (el_val (dispatch e (advance t s))).
  unfold dispatch. destruct (shiftKey e).
  - cbn [andb]. destruct (ctrlKey e || metaKey e);
      [apply keyInWithShiftAndCtrl_el_val | apply keyInWithShift_el_val].
  - cbn [andb orb] in Hev |- *. apply negb_true_iff in Hev. rewrite Hev.
    apply keyIn_el_val.
Qed.

Lemma ev_keeps_text_not_keyup ev : ev_keeps_text ev = true -> is_keyup ev = false.
Proof. destruct ev as [t [e| | |text]]; cbn; congruence. Qed.

Lemma run_keeps_text mid s :
  armed s -> forallb ev_keeps_text mid = true ->
  armed (run mid s) /\ pastes (run mid s) = pastes s
  /\ el_val (run mid s) = el_val s.
Proof.
  revert s. induction mid as [|[t ev] mid IH]; intros s Harmed Hmid;
    [split; [exact Harmed | split; reflexivity]|].
  cbn [forallb] in Hmid. apply andb_true_iff in Hmid as [Hev Hmid].
  pose proof (deliver_pst_armed t ev s Harmed (ev_keeps_text_not_keyup _ Hev))
    as Hd.
  cbn [run].
  destruct (IH (deliver t ev s) (pst_armed _ _ Hd Harmed) Hmid)
    as (Ha & Hp & Hv).
  split; [exact Ha|]. rewrite Hp, Hv, (pst_pastes _ _ Hd).
  split; [reflexivity|]. now apply deliver_el_val.
Qed.

Lemma deliver_ctrl_v_arms t e s :
  unarmed s -> is_ctrl_v e -> isLocked (advance t s) = false ->
  armed (deliver t (Keydown e) s)
  /\ pastes (deliver t (Keydown e) s) = pastes s.
Proof.
  intros Hun Hv Hfree. unfold deliver. cbn [handle]. unfold _onKeyDown.
  rewrite Hfree, (dispatch_ctrl_v _ _ Hv).
  pose proof (advance_pst t s) as Hadv.
  destruct (pasteWhenKeyupCharV_arms (advance t s) (pst_unarmed _ _ Hadv Hun))
    as (Ha & Hp & _).
  pose proof (lock_pst (_pasteWhenKeyupCharV (advance t s))) as Hl.
  split; [exact (pst_armed _ _ Hl Ha)|].
  now rewrite (pst_pastes _ _ Hl), Hp, (pst_pastes _ _ Hadv).
Qed.

(** X13: after a Ctrl+V key-down has armed the paste and the browser has put
    a text into the textarea, key-downs with Shift or without Ctrl, and
    blurs, change neither the text nor the arming: the next key-up pastes,
    once, the matrix of exactly that text as [this.$el.val()] returns it,
    that is, without its carriage returns. *)
Theorem paste_reads_the_text_put_after_ctrl_v
    (s : St) (e : KeyEvent) (t0 t1 t : nat) (text : string)
    (mid : list (nat * DomEvent)) :
  unarmed s -> is_ctrl_v e -> isLocked (advance t0 s) = false ->
  forallb ev_keeps_text mid = true ->
  let s1 := run ((t0, Keydown e) :: (t1, Input text) :: mid) s in
  log (deliver t Keyup s1)
  = log (advance t s1)
      ++ [DataPaste
            (processClipBoardData
               (JsString.strip JsString.carriage_return text))
            (pasteOrigin (world (advance t s1)))]
  /\ pastes (deliver t Keyup s1) = S (pastes s).
Proof.
  intros Hun Hv Hfree Hmid s1.
  destruct (deliver_ctrl_v_arms t0 e s Hun Hv Hfree) as [Ha0 Hp0].
  set (sa := deliver t0 (Keydown e) s) in *.
  pose proof (deliver_pst_armed t1 (Input text) sa Ha0 eq_refl) as Hin.
  set (sb := deliver t1 (Input text) sa) in *.
  assert (el_val sb = JsString.strip JsString.carriage_return text) as Hvb
      by reflexivity.
  destruct (run_keeps_text mid sb (pst_armed _ _ Hin Ha0) Hmid)
    as (Ha1 & Hp1 & Hv1).
  assert (s1 = run mid sb) as -> by reflexivity.
  pose proof (advance_pst t (run mid sb)) as Hadv.
  pose proof (pst_armed _ _ Hadv Ha1) as [_ Hk].
  split.
  - unfold deliver. cbn [handle]. rewrite Hk. cbn [fold_left].
    rewrite (proj1 (run_handler_log _)), advance_el_val, Hv1, Hvb. reflexivity.
  - destruct (deliver_keyup_armed t _ Ha1) as (_ & Hp & _).
    now rewrite Hp, Hp1, (pst_pastes _ _ Hin), Hp0.
Qed.

(** **** Which key-down deletes *)

Ltac case_keys k :=
  repeat match goal with
         | |- context [k =? ?c] => destruct (k =? c)
         end.

Ltac filter_log :=
  cbn [log call set_el set_pasting set_lock set_loop fst snd];
  rewrite ?List.filter_app; cbn [List.filter is_delete is_prevent is_refresh];
  rewrite ?app_nil_r.

Lemma keyInWithShift_deletes e s :
  List.filter is_delete (log (_keyInWithShift e s))
  = List.filter is_delete (log s).
Proof.
  unfold _keyInWithShift, _keyInWithShift_switch, _updateSelectionByKeyIn.
  cbn zeta. case_conditions; filter_log; reflexivity.
Qed.

Lemma keyInWithShiftAndCtrl_deletes e s :
  List.filter is_delete (log (_keyInWithShiftAndCtrl e s))
  = List.filter is_delete (log s).
Proof.
  unfold _keyInWithShiftAndCtrl, _updateSelectionByKeyIn. cbn zeta.
  case_conditions; filter_log; reflexivity.
Qed.

Lemma keyInWithCtrl_deletes e s :
  List.filter is_delete (log (_keyInWithCtrl e s))
  = List.filter is_delete (log s).
Proof.
  unfold _keyInWithCtrl, _copyToClipboard, _pasteWhenKeyupCharV,
    _clearClipBoard. cbn zeta.
  case_conditions; filter_log; reflexivity.
Qed.

Lemma keyIn_deletes_log e s :
  List.filter is_delete (log (_keyIn e s))
  = List.filter is_delete (log s)
      ++ (if negb (util_isBlank M (rowKey (focus_which M (world s))))
             && keyIn_deletes (keyCodeOf e)
          then [if selection_hasSelection M (world s)
                then DataDelRange (selection_range M (world s))
                else DataDel (rowKey (focus_which M (world s)))
                       (columnName (focus_which M (world s)))]
          else []).
Proof.
  unfold _keyIn, _keyIn_switch, keyIn_deletes, _onEnterSpace, _del. cbn zeta.
  destruct (util_isBlank M (rowKey (focus_which M (world s))));
    [now rewrite app_nil_r|].
  cbn [negb andb existsb]. generalize (keyCodeOf e). intros k.
  case_keys k; cbn [orb negb andb]; filter_log; try reflexivity.
  destruct (selection_hasSelection M (world s)); filter_log; reflexivity.
Qed.

(** X5: of all key-downs, only the Delete key pressed without modifiers,
    while the view is unlocked and a row is focused, asks the store to
    delete; it then asks once: for the selected range if there is a
    selection, for the focused cell otherwise. *)
Theorem only_plain_delete_key_deletes (e : KeyEvent) (s : St) :
  List.filter is_delete (log (_onKeyDown e s))
  = List.filter is_delete (log s)
      ++ (if deletes e s
          then [if selection_hasSelection M (world s)
                then DataDelRange (selection_range M (world s))
                else DataDel (rowKey (focus_which M (world s)))
                       (columnName (focus_which M (world s)))]
          else []).
Proof.
  unfold _onKeyDown, deletes, plain.
  destruct (isLocked s); [filter_log; reflexivity|].
  cbn [negb andb].
  change (log (_lock (dispatch e s))) with (log (dispatch e s)).
  unfold dispatch. destruct (shiftKey e); cbn [andb negb].
  - destruct (ctrlKey e || metaKey e);
      rewrite ?keyInWithShiftAndCtrl_deletes, ?keyInWithShift_deletes;
      now rewrite app_nil_r.
  - destruct (ctrlKey e || metaKey e); cbn [negb andb].
    + now rewrite keyInWithCtrl_deletes, app_nil_r.
    + apply keyIn_deletes_log.
Qed.

(** **** Which key-down has its default action prevented *)

Lemma keyIn_prevents e s :
  count_calls is_prevent (log (_keyIn e s))
  = (count_calls is_prevent (log s)
     + if negb (util_isBlank M (rowKey (focus_which M (world s))))
          && keyIn_identifies (keyCodeOf e) then 1 else 0)%nat.
Proof.
  unfold count_calls, _keyIn, _keyIn_switch, keyIn_identifies, _onEnterSpace,
    _del. cbn zeta.
  destruct (util_isBlank M (rowKey (focus_which M (world s))));
    [cbn; lia|].
  cbn [negb andb existsb]. generalize (keyCodeOf e). intros k.
  case_keys k; cbn [orb]; case_conditions; filter_log;
    rewrite ?length_app; cbn [length]; lia.
Qed.

Lemma keyInWithShift_prevents e s :
  count_calls is_prevent (log (_keyInWithShift e s))
  = (count_calls is_prevent (log s)
     + if shift_identifies (keyCodeOf e) then 1 else 0)%nat.
Proof.
  unfold count_calls, _keyInWithShift, _keyInWithShift_switch,
    shift_identifies, _updateSelectionByKeyIn. cbn zeta. cbn [existsb].
  generalize (keyCodeOf e). intros k.
  case_keys k; cbn [orb]; case_conditions; filter_log;
    rewrite ?length_app; cbn [length]; lia.
Qed.

Lemma keyInWithShiftAndCtrl_prevents e s :
  count_calls is_prevent (log (_keyInWithShiftAndCtrl e s))
  = (count_calls is_prevent (log s)
     + if shiftCtrl_identifies (keyCodeOf e) then 1 else 0)%nat.
Proof.
  unfold count_calls, _keyInWithShiftAndCtrl, shiftCtrl_identifies,
    _updateSelectionByKeyIn. cbn zeta. cbn [existsb].
  generalize (keyCodeOf e). intros k.
  case_keys k; cbn [orb]; filter_log; rewrite ?length_app; cbn [length]; lia.
Qed.

Lemma keyInWithCtrl_prevents e s :
  count_calls is_prevent (log (_keyInWithCtrl e s))
  = count_calls is_prevent (log s).
Proof.
  unfold count_calls, _keyInWithCtrl, _copyToClipboard, _pasteWhenKeyupCharV,
    _clearClipBoard. cbn zeta.
  case_conditions; filter_log; reflexivity.
Qed.

Lemma dispatch_unrecognized e s :
  recognized e = false ->
  dispatch e s
  = if plain e && negb (util_isBlank M (rowKey (focus_which M (world s))))
    then call SelectionEnd s else s.
Proof.
  unfold recognized, dispatch, plain.
  destruct (shiftKey e); cbn [andb negb].
  - destruct (ctrlKey e || metaKey e); intros Hk.
    + unfold _keyInWithShiftAndCtrl, shiftCtrl_identifies in *. cbn zeta.
      cbn [existsb] in Hk. revert Hk. generalize (keyCodeOf e). intros k.
      case_keys k; cbn [orb]; intros Hk; congruence.
    + unfold _keyInWithShift, _keyInWithShift_switch, shift_identifies in *.
      cbn zeta. cbn [existsb] in Hk. revert Hk.
      generalize (keyCodeOf e). intros k.
      case_keys k; cbn [orb]; intros Hk; try discriminate.
      now destruct (array_get _ _).
  - destruct (ctrlKey e || metaKey e); cbn [negb andb]; intros Hk.
    + unfold _keyInWithCtrl, ctrl_acts in *. cbn zeta. cbn [existsb] in Hk.
      revert Hk. generalize (keyCodeOf e). intros k.
      case_keys k; cbn [orb]; intros Hk; congruence.
    + unfold _keyIn, _keyIn_switch, keyIn_identifies in *. cbn zeta.
      destruct (util_isBlank M (rowKey (focus_which M (world s))));
        [reflexivity|].
      cbn [existsb] in Hk. revert Hk. generalize (keyCodeOf e). intros k.
      case_keys k; cbn [orb negb]; intros Hk; congruence.
Qed.

(** X9: the default action of a key-down is prevented exactly once when the
    view is locked, or when the handler picked by the modifiers has a case
    for the key; the Ctrl handler never prevents it, so that the browser's
    own copy and paste go on, and neither does a key-down without modifiers
    while no row is focused.  A key-down for which the picked handler has no
    case changes nothing but the lock, apart from ending the selection when
    no modifier is held and a row is focused. *)
Theorem default_prevented_when_locked_or_recognized (e : KeyEvent) (s : St) :
  count_calls is_prevent (log (_onKeyDown e s))
  = (count_calls is_prevent (log s)
     + if isLocked s || intercepts e s then 1 else 0)%nat
  /\ (isLocked s = false -> recognized e = false ->
      _onKeyDown e s
      = _lock (if plain e
                  && negb (util_isBlank M (rowKey (focus_which M (world s))))
               then call SelectionEnd s else s)).
Proof.
  split.
  - unfold _onKeyDown, intercepts.
    destruct (isLocked s); cbn [orb].
    { unfold count_calls. filter_log. rewrite length_app. reflexivity. }
    change (log (_lock (dispatch e s))) with (log (dispatch e s)).
    unfold dispatch.
    destruct (shiftKey e && (ctrlKey e || metaKey e));
      [apply keyInWithShiftAndCtrl_prevents|].
    destruct (shiftKey e); [apply keyInWithShift_prevents|].
    destruct (ctrlKey e || metaKey e);
      [rewrite keyInWithCtrl_prevents; lia | apply keyIn_prevents].
  - intros Hfree Hk. unfold _onKeyDown. rewrite Hfree.
    now rewrite (dispatch_unrecognized e s Hk).
Qed.

(** **** Shift-modified moves *)

Lemma shift_move_switch k index idx s :
  shift_move k index s = Some idx ->
  _keyInWithShift_switch k index s = (idx, true, true, s).
Proof.
  unfold shift_move, _keyInWithShift_switch. cbn zeta.
  repeat (match goal with |- context [k =? ?c] => destruct (k =? c) end;
          [intros [= <-]; reflexivity|]).
  discriminate.
Qed.

(** A shift-modified navigation key that lands on an existing cell asks the
    selection model to extend to the moved index, before anything else. *)
Lemma keyInWithShift_move_update e s idx cm :
  shift_move (keyCodeOf e) (_getIndexBeforeMove s) s = Some idx ->
  array_get (column_getVisibleColumnModelList M (world s)) (column idx)
  = Some cm ->
  data_getRowData M (row idx) (world s) = true ->
  exists rest,
    log (_keyInWithShift e s)
    = log s ++ SelectionUpdate (row idx) (column idx) :: rest.
Proof.
  intros Hmove Hcol Hrow. unfold _keyInWithShift.
  rewrite (shift_move_switch _ _ _ _ Hmove), Hcol, Hrow. cbn [andb].
  unfold _updateSelectionByKeyIn.
  destruct (coordConverter_getScrollPosition M (row idx) (cm_columnName cm)
              (world (call (SelectionUpdate (row idx) (column idx)) s)))
    as [pos|]; eexists; cbn [log call]; rewrite <- ?app_assoc; reflexivity.
Qed.

(** C9 (as the code has it): without a selection the index a shift-modified
    move starts from is the focused index.  With one, each coordinate is the
    upper end of the selected interval when that end is greater than the
    focused coordinate, and the lower end otherwise; this is the end
    farthest from the focus whenever the focus does not lie strictly inside
    the interval, as when the focus sits on a corner of the selection.
    Every shift-modified navigation key (the four arrows, Page Up, Page
    Down, Home, End) moves that index, not the focused one, and when the
    moved index is an existing cell the selection is extended to it. *)
Theorem indexBeforeMove_is_opposite_end (s : St) :
  match selection_range M (world s) with
  | None => _getIndexBeforeMove s = focus_indexOf M (world s)
  | Some r =>
      let f := focus_indexOf M (world s) in
      let a := _getIndexBeforeMove s in
      row a = (if snd (range_row r) >? row f
               then snd (range_row r) else fst (range_row r))
      /\ column a = (if snd (range_column r) >? column f
                     then snd (range_column r) else fst (range_column r))
      /\ (fst (range_row r) <= snd (range_row r) ->
          ~ strictly_inside (row f) (range_row r) ->
          farthest_end (row a) (range_row r) (row f))
      /\ (fst (range_column r) <= snd (range_column r) ->
          ~ strictly_inside (column f) (range_column r) ->
          farthest_end (column a) (range_column r) (column f))
  end
  /\ (forall e index' cm,
         arrow_move (keyCodeOf e) (_getIndexBeforeMove s) = Some index' ->
         array_get (column_getVisibleColumnModelList M (world s))
           (column index') = Some cm ->
         data_getRowData M (row index') (world s) = true ->
         exists rest,
           log (_keyInWithShift e s)
           = log s ++ SelectionUpdate (row index') (column index') :: rest)
  /\ (forall e index' cm,
         shift_move (keyCodeOf e) (_getIndexBeforeMove s) s = Some index' ->
         array_get (column_getVisibleColumnModelList M (world s))
           (column index') = Some cm ->
         data_getRowData M (row index') (world s) = true ->
         exists rest,
           log (_keyInWithShift e s)
           = log s ++ SelectionUpdate (row index') (column index') :: rest)
  /\ (forall k : Z,
         let a := _getIndexBeforeMove s in
         (k = UP_ARROW K ->
          shift_move k a s = Some {| row := row a - 1; column := column a |})
         /\ (k <> UP_ARROW K -> k = DOWN_ARROW K ->
             shift_move k a s = Some {| row := row a + 1; column := column a |})
         /\ (k <> UP_ARROW K -> k <> DOWN_ARROW K -> k = LEFT_ARROW K ->
             shift_move k a s = Some {| row := row a; column := column a - 1 |})
         /\ (k <> UP_ARROW K -> k <> DOWN_ARROW K -> k <> LEFT_ARROW K ->
             k = RIGHT_ARROW K ->
             shift_move k a s = Some {| row := row a; column := column a + 1 |})
         /\ (k <> UP_ARROW K -> k <> DOWN_ARROW K -> k <> LEFT_ARROW K ->
             k <> RIGHT_ARROW K -> k = PAGE_UP K ->
             shift_move k a s
             = Some {| row := _getPageMovedRowIndex (row a) false s;
                       column := column a |})
         /\ (k <> UP_ARROW K -> k <> DOWN_ARROW K -> k <> LEFT_ARROW K ->
             k <> RIGHT_ARROW K -> k <> PAGE_UP K -> k = PAGE_DOWN K ->
             shift_move k a s
             = Some {| row := _getPageMovedRowIndex (row a) true s;
                       column := column a |})
         /\ (k <> UP_ARROW K -> k <> DOWN_ARROW K -> k <> LEFT_ARROW K ->
             k <> RIGHT_ARROW K -> k <> PAGE_UP K -> k <> PAGE_DOWN K ->
             k = HOME K ->
             shift_move k a s = Some {| row := row a; column := 0 |})
         /\ (k <> UP_ARROW K -> k <> DOWN_ARROW K -> k <> LEFT_ARROW K ->
             k <> RIGHT_ARROW K -> k <> PAGE_UP K -> k <> PAGE_DOWN K ->
             k <> HOME K -> k = END K ->
             shift_move k a s
             = Some {| row := row a;
                       column :=
                         Z.of_nat
                           (length (column_getVisibleColumnModelList M (world s)))
                         - 1 |})).
Proof.
  split; [|split; [|split]].
  - unfold _getIndexBeforeMove.
    destruct (selection_range M (world s)) as [r|]; [|reflexivity].
    cbn zeta. cbn [row column].
    split; [reflexivity|]. split; [reflexivity|].
    split; intros Hle Hout; apply farthest_end_outside; assumption.
  - intros e index' cm. apply keyInWithShift_arrow_update.
  - intros e index' cm. apply keyInWithShift_move_update.
  - intros k. cbn zeta. unfold shift_move.
    repeat split; intros;
      repeat match goal with
             | H : k <> ?c |- _ =>
                 rewrite (proj2 (Z.eqb_neq k c) H); clear H
             | H : k = ?c |- _ => rewrite (proj2 (Z.eqb_eq k c) H); clear H
             end; reflexivity.
Qed.

(** X10: a shift-modified navigation key (an arrow, Page Up or Down, Home,
    End) whose target is no cell of the grid, because no visible column
    stands at the target column or no row at the target row, only has its
    default action prevented: the selection is not updated and nothing is
    scrolled. *)
Theorem shift_move_off_the_grid_is_swallowed
    (e : KeyEvent) (s : St) (idx : Index) :
  shift_move (keyCodeOf e) (_getIndexBeforeMove s) s = Some idx ->
  array_get (column_getVisibleColumnModelList M (world s)) (column idx) = None
  \/ data_getRowData M (row idx) (world s) = false ->
  _keyInWithShift e s = call PreventDefault s.
Proof.
  intros Hmove Hoff. unfold _keyInWithShift.
  rewrite (shift_move_switch _ _ _ _ Hmove).
  destruct (array_get (column_getVisibleColumnModelList M (world s))
              (column idx)) as [cm|]; [|reflexivity].
  destruct Hoff as [Hcol|Hrow]; [discriminate|]. now rewrite Hrow.
Qed.

(** X11: a shift-modified navigation key whose target is a cell of the grid
    updates the selection to the target, then asks the converter for the
    scroll position of the target; if there is one, it is given to the
    render model without its [scrollTop] when the selection is of the column
    type, without its [scrollLeft] when it is of the row type, and whole
    otherwise; if there is none, nothing is given.  The default action is
    prevented last. *)
Theorem shift_move_scrolls_along_the_free_axis
    (e : KeyEvent) (s : St) (idx : Index) (cm : ColumnModel) :
  shift_move (keyCodeOf e) (_getIndexBeforeMove s) s = Some idx ->
  array_get (column_getVisibleColumnModelList M (world s)) (column idx)
  = Some cm ->
  data_getRowData M (row idx) (world s) = true ->
  let update := SelectionUpdate (row idx) (column idx) in
  let w := exec M update (world s) in
  match coordConverter_getScrollPosition M (row idx) (cm_columnName cm) w with
  | None => log (_keyInWithShift e s) = log s ++ [update; PreventDefault]
  | Some p =>
      exists pos,
        log (_keyInWithShift e s)
        = log s ++ [update; RenderSet pos; PreventDefault]
        /\ scrollTop pos
           = (if String.eqb (selection_getType M w) (COLUMN T)
              then None else scrollTop p)
        /\ scrollLeft pos
           = (if String.eqb (selection_getType M w) (COLUMN T)
              then scrollLeft p
              else if String.eqb (selection_getType M w) (ROW T)
                   then None else scrollLeft p)
  end.
Proof.
  intros Hmove Hcol Hrow update w. unfold _keyInWithShift.
  rewrite (shift_move_switch _ _ _ _ Hmove), Hcol, Hrow. cbn [andb].
  unfold _updateSelectionByKeyIn.
  change (world (call (SelectionUpdate (row idx) (column idx)) s)) with w.
  destruct (coordConverter_getScrollPosition M (row idx) (cm_columnName cm) w)
    as [p|].
  - eexists. split.
    + cbn [log call]. rewrite <- !app_assoc. reflexivity.
    + destruct (String.eqb (selection_getType M w) (COLUMN T));
        [split; reflexivity|].
      destruct (String.eqb (selection_getType M w) (ROW T)); split; reflexivity.
  - cbn [log call]. now rewrite <- app_assoc.
Qed.

(** **** The lock never outlives its timer *)

Lemma filter_insert_timer_out (P : Timer -> bool) x q :
  P x = false -> List.filter P (insert_timer x q) = List.filter P q.
Proof.
  intros Hx. induction q as [|y q IH]; cbn [insert_timer List.filter].
  - now rewrite Hx.
  - destruct (due x <? due y)%nat; cbn [List.filter];
      [now rewrite Hx | now rewrite IH].
Qed.

Lemma filter_insert_timer_only (P : Timer -> bool) x q :
  P x = true -> List.filter P q = [] -> List.filter P (insert_timer x q) = [x].
Proof.
  intros Hx. induction q as [|y q IH]; cbn [insert_timer List.filter].
  - now rewrite Hx.
  - destruct (P y) eqn:Hy; [discriminate|]. intros Hq.
    destruct (due x <? due y)%nat; cbn [List.filter];
      [now rewrite Hx, Hy, Hq | rewrite Hy; now apply IH].
Qed.

Lemma filter_insert_timer_length (P : Timer -> bool) x q :
  length (List.filter P (insert_timer x q))
  = length (List.filter P (x :: q)).
Proof.
  induction q as [|y q IH]; cbn [insert_timer]; [reflexivity|].
  destruct (due x <? due y)%nat; [reflexivity|].
  cbn [List.filter] in *. destruct (P y), (P x); cbn [length] in *; lia.
Qed.

Lemma filter_filter {A} (P Q : A -> bool) (l : list A) :
  List.filter P (List.filter Q l) = List.filter (fun y => Q y && P y) l.
Proof.
  induction l as [|y l IH]; [reflexivity|].
  cbn [List.filter]. destruct (Q y); cbn [List.filter andb];
    [destruct (P y); now rewrite IH | exact IH].
Qed.

Lemma filter_filter_comm {A} (P Q : A -> bool) (l : list A) :
  List.filter P (List.filter Q l) = List.filter Q (List.filter P l).
Proof.
  rewrite !filter_filter. apply List.filter_ext. intros y. apply andb_comm.
Qed.

Lemma lock_inv_clk s s' : clk s' = clk s -> lock_inv s -> lock_inv s'.
Proof. unfold clk, lock_inv. intros [= -> -> -> -> _]. auto. Qed.

Lemma lock_inv_wf s : lock_inv s -> lock_wf s.
Proof.
  unfold lock_inv, lock_wf. intros Hinv x Hin Hun.
  assert (In x (List.filter is_unlock (timers s))) as Hx
      by (apply filter_In; auto).
  destruct (List.filter is_unlock (timers s)) as [|y [|z l]];
    [destruct Hx | | destruct Hinv].
  destruct Hx as [->|[]]. apply Hinv.
Qed.

Lemma lock_inv_initialize b w : lock_inv (initialize b w).
Proof. reflexivity. Qed.

Lemma lock_inv_lock s : lock_inv s -> lock_inv (_lock s).
Proof.
  intros Hinv. pose proof (lock_inv_wf s Hinv) as Hwf.
  destruct (lock_fields s) as (Hl & Hid & Hnow & Ht).
  unfold lock_inv. rewrite Ht.
  rewrite filter_insert_timer_only; [| reflexivity |].
  - rewrite Hl, Hid, Hnow. cbn. repeat split; lia.
  - rewrite filter_filter_comm.
    unfold lock_inv in Hinv.
    destruct (List.filter is_unlock (timers s)) as [|y [|z l]];
      [reflexivity | | destruct Hinv].
    destruct Hinv as (_ & Htid & _).
    cbn [List.filter]. now rewrite Htid, Nat.eqb_refl.
Qed.

Lemma existsb_filter {A} (P Q : A -> bool) (l : list A) :
  existsb P (List.filter Q l) = existsb Q (List.filter P l).
Proof.
  induction l as [|y l IH]; [reflexivity|].
  cbn [List.filter]. destruct (Q y) eqn:Hq, (P y) eqn:Hp;
    cbn [existsb]; rewrite ?Hq, ?Hp, ?IH; reflexivity.
Qed.

Lemma lock_inv_advance t s : lock_inv s -> lock_inv (advance t s).
Proof.
  intros Hinv. unfold lock_inv in *.
  destruct (advance_fields t s) as (Hid & Hnow & Ht & _).
  rewrite advance_locked, Ht, Hid, Hnow, filter_filter_comm, existsb_filter.
  destruct (List.filter is_unlock (timers s)) as [|x [|z l]];
    [exact Hinv | | destruct Hinv].
  destruct Hinv as (Hl & Htid & Hdue).
  cbn [List.filter existsb]. destruct (is_due t x); cbn [negb orb];
    [reflexivity|]. repeat split; [assumption.. | lia].
Qed.

Lemma lock_inv_blur s : lock_inv s -> lock_inv (_onBlur s).
Proof.
  unfold lock_inv, _onBlur. cbn [snd setTimeout set_loop timers isLocked
    timeoutIdForKeyIn now].
  now rewrite filter_insert_timer_out.
Qed.

Lemma lock_inv_deliver t ev s : lock_inv s -> lock_inv (deliver t ev s).
Proof.
  intros Hinv. apply (lock_inv_advance t) in Hinv. unfold deliver.
  destruct ev as [e| | |text]; cbn [handle].
  - unfold _onKeyDown. destruct (isLocked (advance t s)); [exact Hinv|].
    apply lock_inv_lock. exact (lock_inv_clk _ _ (dispatch_clk e _) Hinv).
  - exact (lock_inv_clk _ _ (run_handlers_clk _ _) Hinv).
  - now apply lock_inv_blur.
  - exact Hinv.
Qed.

Lemma lock_inv_run evs s : lock_inv s -> lock_inv (run evs s).
Proof.
  revert s. induction evs as [|[t ev] evs IH]; intros s Hinv; [exact Hinv|].
  cbn [run]. apply IH. now apply lock_inv_deliver.
Qed.

(** X6: the lock never outlives 10 ms: in every state the view reaches from
    [initialize], whatever the events and their times, letting the clock
    advance by 10 ms or more leaves the view unlocked. *)
Theorem lock_released_within_10ms
    (evs : list (nat * DomEvent)) (b : bool) (w : World M) (d : nat) :
  let s := run evs (initialize b w) in
  isLocked (advance (now s + 10 + d) s) = false.
Proof.
  cbn zeta.
  pose proof (lock_inv_run evs _ (lock_inv_initialize b w)) as Hinv.
  set (s := run evs (initialize b w)) in *.
  rewrite advance_locked, existsb_filter. unfold lock_inv in Hinv.
  destruct (List.filter is_unlock (timers s)) as [|x [|z l]];
    [exact Hinv | | destruct Hinv].
  destruct Hinv as (_ & _ & Hdue). cbn [existsb]. unfold is_due.
  now rewrite (proj2 (Nat.leb_le _ _)) by lia.
Qed.

(** X7: timers that unlock never pile up: in every state the view reaches
    from [initialize], no such timer pends while the view is unlocked, and
    while it is locked exactly one does: it has the id kept in
    [timeoutIdForKeyIn] and is due at most 10 ms from now. *)
Theorem one_unlock_timer_while_locked
    (evs : list (nat * DomEvent)) (b : bool) (w : World M) :
  let s := run evs (initialize b w) in
  if isLocked s
  then exists d,
      (d <= now s + 10)%nat
      /\ List.filter is_unlock (timers s)
         = [{| tid := timeoutIdForKeyIn s; due := d; callback := CbUnlock |}]
  else List.filter is_unlock (timers s) = [].
Proof.
  cbn zeta.
  pose proof (lock_inv_run evs _ (lock_inv_initialize b w)) as Hinv.
  set (s := run evs (initialize b w)) in *. unfold lock_inv in Hinv.
  destruct (List.filter is_unlock (timers s)) as [|x [|z l]] eqn:E;
    [now rewrite Hinv | | destruct Hinv].
  destruct Hinv as (-> & Htid & Hdue).
  assert (is_unlock x = true) as Hun.
  { assert (In x (List.filter is_unlock (timers s))) as Hx
        by (rewrite E; now left).
    now apply filter_In in Hx. }
  exists (due x). split; [exact Hdue|].
  destruct x as [i dd cb]. unfold is_unlock in Hun. cbn in *.
  destruct cb; [now subst | discriminate].
Qed.

(** **** Blur *)

Lemma run_callbacks_refreshes (l : list Timer) s0 :
  count_calls is_refresh
    (log (fold_left (fun acc x => run_callback (callback x) acc) l s0))
  = (count_calls is_refresh (log s0)
     + length (List.filter (fun x => negb (is_unlock x)) l))%nat.
Proof.
  revert s0. induction l as [|x l IH]; intros s0; [cbn; lia|].
  cbn [fold_left List.filter]. rewrite IH. unfold is_unlock at 2.
  destruct (callback x); cbn [run_callback negb _unlock set_lock log length].
  - reflexivity.
  - unfold count_calls. filter_log. rewrite length_app. cbn [length]. lia.
Qed.

Lemma advance_refreshes t s :
  count_calls is_refresh (log (advance t s))
  = (count_calls is_refresh (log s)
     + length (List.filter (fun x => is_due t x && negb (is_unlock x))
                 (timers s)))%nat.
Proof.
  unfold advance. rewrite run_callbacks_refreshes, filter_filter. reflexivity.
Qed.

(** X8: a blur does not refresh the focus state at once: it makes no call,
    and sets a timer with no delay; as soon as the clock moves on, even by
    nothing, [focusModel.refreshState()] is called once more than it would
    have been without the blur. *)
Theorem blur_defers_refreshState (s : St) (d : nat) :
  log (handle Blur s) = log s
  /\ world (handle Blur s) = world s
  /\ count_calls is_refresh (log (advance (now s + d) (handle Blur s)))
     = S (count_calls is_refresh (log (advance (now s + d) s))).
Proof.
  split; [reflexivity|]. split; [reflexivity|].
  rewrite !advance_refreshes. cbn [handle _onBlur snd setTimeout set_loop log
    timers].
  rewrite filter_insert_timer_length. cbn [List.filter].
  unfold is_due at 1, is_unlock at 1. cbn [due callback].
  rewrite (proj2 (Nat.leb_le _ _)) by lia. cbn [andb negb length]. lia.
Qed.

End View.

(** *** Worked runs, witnesses and a counterexample *)

(** Witness of C3: Ctrl+V on a fresh view, the browser's text, three
    key-ups: one paste. *)
Lemma ctrl_v_pastes_once_witness :
  let s := initialize deskModels false desk_idle in
  (unarmed deskModels s /\ is_ctrl_v domKeyCodes (key 86 false true)
   /\ isLocked deskModels (advance deskModels 0 s) = false)
  /\ pastes deskModels
       (run deskModels domKeyCodes selectionTypes
          ([(5%nat, Input "a")]
             ++ (20%nat, Keyup) :: [(30%nat, Keyup); (40%nat, Keyup)])
          (deliver deskModels domKeyCodes selectionTypes 0
             (Keydown (key 86 false true)) s)) = 1%nat.
Proof.
  cbv zeta.
  assert (unarmed deskModels (initialize deskModels false desk_idle)) as Hun
    by (split; reflexivity).
  assert (is_ctrl_v domKeyCodes (key 86 false true)) as Hv
    by (repeat split; discriminate).
  assert (isLocked deskModels
            (advance deskModels 0 (initialize deskModels false desk_idle))
          = false) as Hfree by reflexivity.
  split; [exact (conj Hun (conj Hv Hfree))|].
  destruct (ctrl_v_pastes_once deskModels domKeyCodes selectionTypes
              _ _ 0%nat Hun Hv Hfree) as (_ & _ & _ & _ & _ & Hlast).
  destruct (Hlast [(5%nat, Input "a")] 20%nat [(30%nat, Keyup); (40%nat, Keyup)]
              eq_refl eq_refl) as (_ & _ & Hp & _).
  exact Hp.
Defined.

(** Witness of C4: three key-downs on a fresh view, at 0, 5 and 10 ms. *)
Lemma keydown_lock_window_witness :
  let s := initialize deskModels false desk_idle in
  let run3 t3 :=
    deliver deskModels domKeyCodes selectionTypes t3 (Keydown (key 40 false false))
      (deliver deskModels domKeyCodes selectionTypes 5
         (Keydown (key 40 false false))
         (deliver deskModels domKeyCodes selectionTypes 0
            (Keydown (key 40 false false)) s)) in
  (lock_wf deskModels s /\ (now deskModels s <= 0)%nat
   /\ (0 <= 5 < 0 + 10)%nat /\ (0 + 10 <= 10)%nat
   /\ isLocked deskModels (advance deskModels 0 s) = false)
  /\ isLocked deskModels (run3 10%nat) = true.
Proof.
  cbv zeta.
  assert (lock_wf deskModels (initialize deskModels false desk_idle)) as Hwf
    by apply lock_wf_initialize.
  assert (now deskModels (initialize deskModels false desk_idle) <= 0)%nat
    as Hnow by (cbn; lia).
  assert (0 <= 5 < 0 + 10)%nat as H2 by lia.
  assert (0 + 10 <= 10)%nat as H3 by lia.
  assert (isLocked deskModels
            (advance deskModels 0 (initialize deskModels false desk_idle))
          = false) as Hfree by reflexivity.
  split; [exact (conj Hwf (conj Hnow (conj H2 (conj H3 Hfree))))|].
  destruct (keydown_lock_window deskModels domKeyCodes selectionTypes _
              (key 40 false false) (key 40 false false) (key 40 false false)
              0%nat 5%nat 10%nat Hwf Hnow H2 H3 Hfree)
    as (_ & _ & _ & _ & _ & _ & Hs3).
  rewrite Hs3. apply lock_fields.
Defined.

(** Witness of C8: with rows 0 to 10 selected and the focus on row 8, the
    paste armed by Ctrl+V starts at the selection's corner [(0, 0)]. *)
Lemma paste_origin_selection_start_or_focus_witness :
  let s :=
    deliver deskModels domKeyCodes selectionTypes 0
      (Keydown (key 86 false true))
      (initialize deskModels false desk_all_selected) in
  armed deskModels s
  /\ log deskModels (deliver deskModels domKeyCodes selectionTypes 20 Keyup s)
     = [DataPaste [inr [""]] {| row := 0; column := 0 |}].
Proof.
  cbv zeta.
  assert (armed deskModels
            (deliver deskModels domKeyCodes selectionTypes 0
               (Keydown (key 86 false true))
               (initialize deskModels false desk_all_selected))) as Harmed
      by (split; reflexivity).
  split; [exact Harmed|].
  exact (proj1 (paste_origin_selection_start_or_focus deskModels domKeyCodes
                  selectionTypes _ 20%nat Harmed)).
Defined.

(** A whole paste: Ctrl+V, the browser fills the textarea, two key-ups.  The
    store is asked to paste once, the 2-row matrix, at the focused cell. *)
Example run_paste :
  log deskModels
    (run deskModels domKeyCodes selectionTypes
       [(0%nat, Keydown (key 86 false true)); (3%nat, Input sample_text);
        (20%nat, Keyup); (25%nat, Keyup)]
       (initialize deskModels false desk_idle))
  = [DataPaste [inr ["a"; "b"]; inr ["c"]] {| row := 0; column := 0 |}].
Proof. reflexivity. Qed.

(** Three presses of the down arrow, at 0, 5 and 10 ms: the first and the
    third move the focus, the second only has its default prevented. *)
Example run_lock :
  log deskModels
    (run deskModels domKeyCodes selectionTypes
       [(0%nat, Keydown (key 40 false false));
        (5%nat, Keydown (key 40 false false));
        (10%nat, Keydown (key 40 false false))]
       (initialize deskModels false desk_idle))
  = [FocusFocus (INum 0) (IStr "c1") true; PreventDefault; SelectionEnd;
     PreventDefault;
     FocusFocus (INum 0) (IStr "c1") true; PreventDefault; SelectionEnd].
Proof. reflexivity. Qed.

(** Shift+Up with rows 0 to 10 selected and the focus on row 8: the
    selection is updated to row 9, one above the lower end. *)
Example run_shift_up :
  log deskModels
    (_keyInWithShift deskModels domKeyCodes selectionTypes (key 38 true false)
       (initialize deskModels false desk_all_selected))
  = [SelectionUpdate 9 0; PreventDefault].
Proof. reflexivity. Qed.

(** Witness of C9: with the focus on a corner, the move starts from the
    opposite end, row 10, which is the farthest from the focus. *)
Lemma indexBeforeMove_is_opposite_end_witness :
  (8 <= 10 /\ ~ strictly_inside 8 (8, 10))
  /\ farthest_end
       (row (_getIndexBeforeMove deskModels (initialize deskModels false desk_corner)))
       (8, 10) 8.
Proof.
  assert (8 <= 10) as Hle by lia.
  assert (~ strictly_inside 8 (8, 10)) as Hout
      by (unfold strictly_inside; cbn; lia).
  split; [exact (conj Hle Hout)|].
  destruct (proj1 (indexBeforeMove_is_opposite_end deskModels domKeyCodes
                     selectionTypes (initialize deskModels false desk_corner)))
    as (_ & _ & Hrow & _).
  exact (Hrow Hle Hout).
Defined.

(** Counterexample to C9 as worded: with rows 0 to 10 selected and the focus
    on row 8, the move starts from row 10, two rows from the focus, while
    row 0 is eight rows from it. *)
Lemma indexBeforeMove_not_farthest :
  row (_getIndexBeforeMove deskModels (initialize deskModels false desk_all_selected))
  = 10
  /\ ~ anchor_is_farthest_corner deskModels
         (initialize deskModels false desk_all_selected).
Proof.
  split; [reflexivity|].
  unfold anchor_is_farthest_corner, farthest_end. cbn.
  intros [(_ & H & _) _]. lia.
Qed.

(** Witness of X2: a matrix of two rows, the second shorter. *)
Lemma clip_text_parses_back_witness :
  ([["a"; "b"]; ["c"]] <> []
   /\ Forall (fun r : list string => r <> [] /\ Forall cleanCell r)
        [["a"; "b"]; ["c"]])
  /\ processClipBoardData (clipText [["a"; "b"]; ["c"]])
     = [inr ["a"; "b"]; inr ["c"]].
Proof.
  assert ([["a"; "b"]; ["c"]] <> ([] : list (list string))) as Hne
      by discriminate.
  assert (Forall (fun r : list string => r <> [] /\ Forall cleanCell r)
            [["a"; "b"]; ["c"]]) as Hm.
  { repeat constructor; discriminate. }
  split; [exact (conj Hne Hm)|].
  exact (clip_text_parses_back _ Hne Hm).
Defined.

(** Witness of X10: Shift+Down with rows 0 to 10 selected aims at row 11,
    which does not exist. *)
Lemma shift_move_off_the_grid_is_swallowed_witness :
  let s := initialize deskModels false desk_all_selected in
  (shift_move deskModels domKeyCodes (keyCodeOf (key 40 true false))
     (_getIndexBeforeMove deskModels s) s
   = Some {| row := 11; column := 0 |}
   /\ (array_get (desk_columns desk_all_selected) 0 = None
       \/ data_getRowData deskModels 11 (world deskModels s) = false))
  /\ log deskModels
       (_keyInWithShift deskModels domKeyCodes selectionTypes
          (key 40 true false) s)
     = [PreventDefault].
Proof.
  cbv zeta.
  assert (shift_move deskModels domKeyCodes (keyCodeOf (key 40 true false))
            (_getIndexBeforeMove deskModels
               (initialize deskModels false desk_all_selected))
            (initialize deskModels false desk_all_selected)
          = Some {| row := 11; column := 0 |}) as Hmove by reflexivity.
  assert (array_get (desk_columns desk_all_selected) 0 = None
          \/ data_getRowData deskModels 11
               (world deskModels (initialize deskModels false desk_all_selected))
             = false) as Hoff by (right; reflexivity).
  split; [exact (conj Hmove Hoff)|].
  rewrite (shift_move_off_the_grid_is_swallowed deskModels domKeyCodes
             selectionTypes _ _ _ Hmove Hoff).
  reflexivity.
Defined.

(** Witness of X11: Shift+Up with rows 0 to 10 selected and a selection of
    the column type: the scroll position loses its [scrollTop]. *)
Lemma shift_move_scrolls_along_the_free_axis_witness :
  let s := initialize scrollModels false desk_all_selected in
  (shift_move scrollModels domKeyCodes (keyCodeOf (key 38 true false))
     (_getIndexBeforeMove scrollModels s) s
   = Some {| row := 9; column := 0 |}
   /\ array_get (desk_columns desk_all_selected) 0
      = Some {| cm_columnName := IStr "c1" |}
   /\ data_getRowData scrollModels 9 (world scrollModels s) = true)
  /\ exists pos,
      log scrollModels
        (_keyInWithShift scrollModels domKeyCodes selectionTypes
           (key 38 true false) s)
      = [SelectionUpdate 9 0; RenderSet pos; PreventDefault]
      /\ scrollTop pos = None /\ scrollLeft pos = Some 0.
Proof.
  cbv zeta.
  assert (shift_move scrollModels domKeyCodes (keyCodeOf (key 38 true false))
            (_getIndexBeforeMove scrollModels
               (initialize scrollModels false desk_all_selected))
            (initialize scrollModels false desk_all_selected)
          = Some {| row := 9; column := 0 |}) as Hmove by reflexivity.
  assert (array_get (desk_columns desk_all_selected) 0
          = Some {| cm_columnName := IStr "c1" |}) as Hcol by reflexivity.
  assert (data_getRowData scrollModels 9
            (world scrollModels (initialize scrollModels false desk_all_selected))
          = true) as Hrow by reflexivity.
  split; [exact (conj Hmove (conj Hcol Hrow))|].
  exact (shift_move_scrolls_along_the_free_axis scrollModels domKeyCodes
           selectionTypes _ _ _ _ Hmove Hcol Hrow).
Defined.

(** Witness of X13: Ctrl+V, a text whose two lines are separated by carriage
    return and newline, a plain arrow key and a blur, then the key-up: the
    matrix pasted has the two cells, without the carriage return. *)
Lemma paste_reads_the_text_put_after_ctrl_v_witness :
  let s := initialize deskModels false desk_idle in
  let mid := [(12%nat, Keydown (key 40 false false)); (15%nat, Blur)] in
  (unarmed deskModels s /\ is_ctrl_v domKeyCodes (key 86 false true)
   /\ isLocked deskModels (advance deskModels 0 s) = false
   /\ forallb ev_keeps_text mid = true)
  /\ log deskModels
       (deliver deskModels domKeyCodes selectionTypes 20 Keyup
          (run deskModels domKeyCodes selectionTypes
             ((0%nat, Keydown (key 86 false true))
                :: (3%nat, Input crlf_text) :: mid) s))
     = [FocusFocus (INum 0) (IStr "c1") true; PreventDefault; SelectionEnd;
        FocusRefreshState;
        DataPaste [inr ["a"]; inr ["b"]] {| row := 0; column := 0 |}].
Proof.
  cbv zeta.
  assert (unarmed deskModels (initialize deskModels false desk_idle)) as Hun
      by (split; reflexivity).
  assert (is_ctrl_v domKeyCodes (key 86 false true)) as Hv
      by (repeat split; discriminate).
  assert (isLocked deskModels
            (advance deskModels 0 (initialize deskModels false desk_idle))
          = false) as Hfree by reflexivity.
  assert (forallb ev_keeps_text
            [(12%nat, Keydown (key 40 false false)); (15%nat, Blur)] = true)
    as Hmid by reflexivity.
  split; [exact (conj Hun (conj Hv (conj Hfree Hmid)))|].
  rewrite (proj1 (paste_reads_the_text_put_after_ctrl_v deskModels domKeyCodes
                    selectionTypes _ _ 0%nat 3%nat 20%nat crlf_text _
                    Hun Hv Hfree Hmid)).
  reflexivity.
Defined.

End Clipboard.


(* ===================================================================== *)
(** ** The row data store: paste and delete *)
(* ===================================================================== *)

Module RowList.

(** The file of the row data store ([model/data/rowList]) is not among the
    sources at hand; only its unit tests are.  Its operations are modelled
    from the design document, and the unit tests are replayed on the model
    below. *)

(** *** Data *)

(** Modelled from the spec: an entry of the column schema
    ([model/data/columnModel], section 3 of the design document).
    [editOption] holds the edit type; a column without it cannot be
    edited. *)
Record Column := {
  columnName : string;
  title : string;
  editOption : option string;
  isHidden : bool;
  defaultValue : option string
}.

(** Modelled from the spec: a row of the store ([model/data/row], section 3
    of the design document): its stable key, the per-row metadata, and its
    cells by column name.  [rowSpan] maps a column name to the number of
    rows, this one included, that are merged under this row's cell (a span
    of 2 starting at row 0 covers rows 0 and 1). *)
Record Row := {
  rowKey : nat;
  disabled : bool;
  rowSpan : gmap string nat;
  cells : gmap string string
}.

Record Store := {
  columnModel : list Column;
  rows : list Row;
  nextRowKey : nat
}.

(** [{row, column}]: positions among the rows and the visible columns. *)
Record Address := { row : nat; column : nat }.

(** [{row: [r0, r1], column: [c0, c1]}], both ends included. *)
Record Range := { range_row : nat * nat; range_column : nat * nat }.

(** *** Columns *)

Definition visibleColumns (cm : list Column) : list Column :=
  List.filter (fun c => negb (isHidden c)) cm.

Definition hasEditOption (c : Column) : bool :=
  match editOption c with Some _ => true | None => false end.

Definition defaultOf (c : Column) : string :=
  match defaultValue c with Some v => v | None => "" end.

(** *** Row spans *)

(** Row [j] owns the cell of row [i] in column [name]: it comes earlier and
    its span for that column reaches down to [i]. *)
Definition owns (rs : list Row) (name : string) (i j : nat) : bool :=
  match rs !! j with
  | Some r =>
      match rowSpan r !! name with
      | Some n => (j <? i)%nat && (i <? j + n)%nat
      | None => false
      end
  | None => false
  end.

(** The main row of the cell, when the cell is a follower. *)
Definition mainRowOf (rs : list Row) (name : string) (i : nat) : option nat :=
  List.find (owns rs name i) (seq 0 i).

Definition isFollower (rs : list Row) (name : string) (i : nat) : bool :=
  match mainRowOf rs name i with Some _ => true | None => false end.

(** *** Reading *)

(** What row [i] itself stores for column [name]. *)
Definition storedValue (rs : list Row) (i : nat) (name : string)
  : option string :=
  match rs !! i with
  | Some r => cells r !! name
  | None => None
  end.

(** Modelled from the spec: [rowList.getValue(rowIndex, columnName)]; a
    follower of a row span mirrors the cell of its main row (section 3 and
    the glossary of the design document). *)
Definition getValue (s : Store) (i : nat) (name : string) : option string :=
  match mainRowOf (rows s) name i with
  | Some j => storedValue (rows s) j name
  | None => storedValue (rows s) i name
  end.

(** *** Writing *)

(** Modelled from the spec: the write exclusions of [paste] and [delRange]
    (section 4.1 of the design document): a cell may be written unless its
    row is disabled, its column has no edit option, or it is a follower of a
    row span. *)
Definition writable (rs : list Row) (i : nat) (c : Column) : bool :=
  match rs !! i with
  | Some r =>
      negb (disabled r) && hasEditOption c
      && negb (isFollower rs (columnName c) i)
  | None => false
  end.

Definition setCell (i : nat) (name value : string) (s : Store) : Store :=
  {| columnModel := columnModel s;
     rows := match rows s !! i with
             | Some r =>
                 <[ i := {| rowKey := rowKey r; disabled := disabled r;
                            rowSpan := rowSpan r;
                            cells := <[ name := value ]> (cells r) |} ]>
                   (rows s)
             | None => rows s
             end;
     nextRowKey := nextRowKey s |}.

(** Modelled from the spec: the row that [paste] appends (section 4.1 of
    the design document): every column of the schema at its default value,
    or empty. *)
Definition newRow (cm : list Column) (key : nat) : Row :=
  {| rowKey := key; disabled := false; rowSpan := ∅;
     cells := list_to_map ((fun c => (columnName c, defaultOf c)) <$> cm) |}.

Definition appendRow (s : Store) : Store :=
  {| columnModel := columnModel s;
     rows := rows s ++ [newRow (columnModel s) (nextRowKey s)];
     nextRowKey := S (nextRowKey s) |}.

(** Append rows until row [i] exists. *)
Definition ensureRow (i : nat) (s : Store) : Store :=
  Nat.iter (S i - length (rows s)) appendRow s.

(** Modelled from the spec: the step of [rowList.paste] for one cell of the
    matrix, aimed at position [(i, k)] (section 4.1 of the design document,
    the five bullets in their order). *)
Definition pasteCell (i k : nat) (value : string) (s : Store) : Store :=
  match visibleColumns (columnModel s) !! k with
  | None => s
  | Some c =>
      let s1 := ensureRow i s in
      if writable (rows s1) i c then setCell i (columnName c) value s1
      else s1
  end.

Fixpoint pasteRow (i k : nat) (values : list string) (s : Store) : Store :=
  match values with
  | [] => s
  | v :: values' => pasteRow i (S k) values' (pasteCell i k v s)
  end.

Fixpoint pasteRows (i k : nat) (matrix : list (list string)) (s : Store)
  : Store :=
  match matrix with
  | [] => s
  | values :: matrix' => pasteRows (S i) k matrix' (pasteRow i k values s)
  end.

(** Modelled from the spec: [rowList.paste(matrix, startAddress)], section
    4.1 of the design document.  Each cell [(r, c)] of the matrix is aimed at
    [(startAddress.row + r, startAddress.column + c)]; a cell aimed past the
    visible columns is skipped; rows are appended until the target row
    exists; the visible column index is resolved to a column name; the write
    is skipped for a disabled row, a column without edit option, or a
    row-span follower. *)
Definition paste (matrix : list (list string)) (startAddress : Address)
    (s : Store) : Store :=
  pasteRows (row startAddress) (column startAddress) matrix s.

(** Modelled from the spec: the step of [rowList.delRange] for one cell
    (section 4.2 of the design document): clear the cell at position
    [(i, k)], if there is one and it may be written. *)
Definition clearCell (i k : nat) (s : Store) : Store :=
  match visibleColumns (columnModel s) !! k with
  | None => s
  | Some c =>
      if writable (rows s) i c then setCell i (columnName c) "" s else s
  end.

(** Modelled from the spec: [rowList.delRange(range)], section 4.2 of the
    design document: every visible cell of the inclusive rectangle is cleared
    to the empty string, under the exclusions of [paste]. *)
Definition delRange (range : Range) (s : Store) : Store :=
  let '(r0, r1) := range_row range in
  let '(c0, c1) := range_column range in
  fold_left
    (fun acc i =>
       fold_left (fun acc' k => clearCell i k acc') (seq c0 (S c1 - c0)) acc)
    (seq r0 (S r1 - r0)) s.

Fixpoint indexOfRowKey (key : nat) (rs : list Row) : option nat :=
  match rs with
  | [] => None
  | r :: rs' =>
      if (rowKey r =? key)%nat then Some 0%nat
      else option_map S (indexOfRowKey key rs')
  end.

Fixpoint indexOfColumnName (name : string) (cs : list Column) : option nat :=
  match cs with
  | [] => None
  | c :: cs' =>
      if String.eqb (columnName c) name then Some 0%nat
      else option_map S (indexOfColumnName name cs')
  end.

(** Modelled from the spec: [rowList.del(rowKey, columnName)], section 4.2 of
    the design document: one cell, under the same exclusions. *)
Definition del (key : nat) (name : string) (s : Store) : Store :=
  match indexOfRowKey key (rows s),
        indexOfColumnName name (visibleColumns (columnModel s)) with
  | Some i, Some k => clearCell i k s
  | _, _ => s
  end.

(** *** The grids of the unit tests *)

(** [createColumnModelList]: text columns, visible, no default. *)
Definition textColumn (name : string) : Column :=
  {| columnName := name; title := name; editOption := Some "text";
     isHidden := false; defaultValue := None |}.

(** A row as [setRowList] takes it: values by column name, and the extra
    data. *)
Definition mkRow (key : nat) (isDisabled : bool) (span : list (string * nat))
    (values : list (string * string)) : Row :=
  {| rowKey := key; disabled := isDisabled; rowSpan := list_to_map span;
     cells := list_to_map values |}.

Definition mkStore (cm : list Column) (rs : list Row) : Store :=
  {| columnModel := cm; rows := rs; nextRowKey := length rs |}.

(** *** Notions used in the statements *)

Definition meta (r : Row) : nat * bool * gmap string nat :=
  (rowKey r, disabled r, rowSpan r).

(** The metadata of an appended row. *)
Definition fresh (m : nat * bool * gmap string nat) : Prop :=
  m.1.2 = false /\ m.2 = ∅.

(** [s'] has the schema and the rows of [s], with their metadata, and
    possibly appended rows after them. *)
Definition grows (s s' : Store) : Prop :=
  columnModel s' = columnModel s
  /\ exists more,
      meta <$> rows s' = (meta <$> rows s) ++ more /\ Forall fresh more.

(** [s'] has exactly the rows of [s], with their metadata. *)
Definition keeps (s s' : Store) : Prop :=
  columnModel s' = columnModel s /\ meta <$> rows s' = meta <$> rows s.

Definition visibleCount (s : Store) : nat :=
  length (visibleColumns (columnModel s)).

Definition rowDisabled (s : Store) (i : nat) : bool :=
  match rows s !! i with Some r => disabled r | None => false end.

(** Column [name] can be edited: a visible column of that name has an edit
    option. *)
Definition columnEditable (s : Store) (name : string) : bool :=
  existsb (fun c => String.eqb (columnName c) name && hasEditOption c)
    (visibleColumns (columnModel s)).

(** The cell of row [i] in column [c] will take a write, whether row [i]
    exists already or is yet to be appended. *)
Definition open (s : Store) (i : nat) (c : Column) : bool :=
  negb (rowDisabled s i) && hasEditOption c
  && negb (isFollower (rows s) (columnName c) i).

(** What row [i] stores for [name], or will store when it is appended. *)
Definition cellOrDefault (s : Store) (i : nat) (name : string)
  : option string :=
  match rows s !! i with
  | Some r => cells r !! name
  | None => cells (newRow (columnModel s) 0) !! name
  end.

(** The step aimed at [(i, k)] writes the cell [(i', name)]. *)
Definition hits (s : Store) (i k i' : nat) (name : string) : bool :=
  match visibleColumns (columnModel s) !! k with
  | Some c => Nat.eqb i' i && String.eqb (columnName c) name && open s i c
  | None => false
  end.

(** The names of the visible columns are pairwise distinct. *)
Definition visibleNamesUnique (s : Store) : Prop :=
  NoDup (columnName <$> visibleColumns (columnModel s)).

(** Some value of the matrix is aimed at the cell [(i', name)], and the cell
    is open. *)
Definition aimedAt (m : list (list string)) (a : Address) (s : Store)
    (i' : nat) (name : string) : Prop :=
  exists r vs c col,
    m !! r = Some vs /\ c < length vs
    /\ visibleColumns (columnModel s) !! (column a + c) = Some col
    /\ i' = row a + r /\ columnName col = name /\ open s i' col = true.

(** The range covers the cell [(i', name)], and the cell is open. *)
Definition clearedBy (range : Range) (s : Store) (i' : nat) (name : string)
  : Prop :=
  exists k col,
    fst (range_row range) <= i' <= snd (range_row range)
    /\ fst (range_column range) <= k <= snd (range_column range)
    /\ visibleColumns (columnModel s) !! k = Some col
    /\ columnName col = name /\ open s i' col = true.

(** The row key and the column name address the cell [(i', name)], and the
    cell is open: row [i'] is the first row with that key, and the column is
    the first visible column with that name. *)
Definition deletedBy (key : nat) (cn : string) (s : Store) (i' : nat)
    (name : string) : Prop :=
  exists r k col,
    rows s !! i' = Some r /\ rowKey r = key
    /\ (forall j r', j < i' -> rows s !! j = Some r' -> rowKey r' <> key)
    /\ visibleColumns (columnModel s) !! k = Some col /\ columnName col = cn
    /\ (forall j c', j < k -> visibleColumns (columnModel s) !! j = Some c' ->
                     columnName c' <> cn)
    /\ cn = name /\ open s i' col = true.

(** The grid of the unit test on hidden columns: [c1], [c2], [c3] with [c2]
    hidden, and two rows. *)
Definition hiddenColumnGrid (v01 v02 v03 v11 v12 v13 : string) : Store :=
  mkStore
    [ textColumn "c1";
      {| columnName := "c2"; title := "c2"; editOption := Some "text";
         isHidden := true; defaultValue := None |};
      textColumn "c3" ]
    [ mkRow 0 false [] [("c1", v01); ("c2", v02); ("c3", v03)];
      mkRow 1 false [] [("c1", v11); ("c2", v12); ("c3", v13)] ].


(** The grids of the other unit tests. *)
Definition textGrid : Store :=
  mkStore
    [ textColumn "c1";
      {| columnName := "c2"; title := "c2";
         editOption := Some "text-convertible"; isHidden := false;
         defaultValue := None |};
      textColumn "c3" ]
    [ mkRow 0 false [] [("c1", "0-1"); ("c2", "0-2"); ("c3", "0-3")];
      mkRow 1 false [] [("c1", "1-1"); ("c2", "1-2"); ("c3", "1-3")];
      mkRow 2 false [] [("c1", "2-1"); ("c2", "2-2"); ("c3", "2-3")] ].

Definition noEditGrid : Store :=
  mkStore
    [ textColumn "c1";
      {| columnName := "c2"; title := "c2"; editOption := None;
         isHidden := false; defaultValue := None |} ]
    [ mkRow 0 false [] [("c1", "0-1"); ("c2", "0-2")];
      mkRow 1 false [] [("c1", "1-1"); ("c2", "1-2")] ].

Definition disabledGrid : Store :=
  mkStore [ textColumn "c1"; textColumn "c2" ]
    [ mkRow 0 true [] [("c1", "0-1"); ("c2", "0-2")];
      mkRow 1 false [] [("c1", "1-1"); ("c2", "1-2")] ].

(** Row 0 spans two rows in column [c2]. *)
Definition rowSpanGrid : Store :=
  mkStore [ textColumn "c1"; textColumn "c2" ]
    [ mkRow 0 false [("c2", 2)] [("c1", "0-1"); ("c2", "0-2")];
      mkRow 1 false [] [("c1", "1-1"); ("c2", "1-2")] ].

(* --------------------------------------------------------------------- *)
(** *** Properties of the row data store *)
(* --------------------------------------------------------------------- *)

(** **** What the operations never touch: keys, flags, spans, the schema *)

Lemma keeps_grows s s' : keeps s s' -> grows s s'.
Proof.
  intros [Hc Hm]. split; [exact Hc|]. exists []. rewrite app_nil_r. auto.
Qed.

Lemma keeps_refl s : keeps s s.
Proof. split; reflexivity. Qed.

Lemma keeps_trans s1 s2 s3 : keeps s1 s2 -> keeps s2 s3 -> keeps s1 s3.
Proof. intros [? ?] [? ?]. split; congruence. Qed.

Lemma grows_refl s : grows s s.
Proof. apply keeps_grows, keeps_refl. Qed.

Lemma grows_trans s1 s2 s3 : grows s1 s2 -> grows s2 s3 -> grows s1 s3.
Proof.
  intros [Hc1 (m1 & Hm1 & Hf1)] [Hc2 (m2 & Hm2 & Hf2)].
  split; [congruence|]. exists (m1 ++ m2).
  rewrite Hm2, Hm1, <- app_assoc. split; [reflexivity|].
  apply Forall_app; auto.
Qed.

Lemma grows_length s s' : grows s s' -> length (rows s) <= length (rows s').
Proof.
  intros [_ (more & Hm & _)].
  apply (f_equal length) in Hm. rewrite length_app, !length_fmap in Hm. lia.
Qed.

Lemma keeps_length s s' : keeps s s' -> length (rows s') = length (rows s).
Proof.
  intros [_ Hm]. apply (f_equal length) in Hm. now rewrite !length_fmap in Hm.
Qed.

Lemma grows_lookup_old s s' i r :
  grows s s' -> rows s !! i = Some r ->
  exists r', rows s' !! i = Some r' /\ meta r' = meta r.
Proof.
  intros [_ (more & Hm & _)] Hr.
  assert ((meta <$> rows s') !! i = Some (meta r)) as H.
  { rewrite Hm. apply lookup_app_l_Some. now rewrite list_lookup_fmap, Hr. }
  rewrite list_lookup_fmap in H.
  destruct (rows s' !! i) as [r'|]; simpl in H; [|discriminate].
  exists r'. split; congruence.
Qed.

Lemma grows_lookup_new s s' i r' :
  grows s s' -> rows s !! i = None -> rows s' !! i = Some r' ->
  fresh (meta r').
Proof.
  intros [_ (more & Hm & Hf)] Hnone Hr'.
  assert ((meta <$> rows s') !! i = Some (meta r')) as H
      by now rewrite list_lookup_fmap, Hr'.
  rewrite Hm in H. apply lookup_app_Some in H as [H|[_ H]].
  - rewrite list_lookup_fmap, Hnone in H. discriminate.
  - rewrite Forall_forall in Hf. apply Hf. eapply list_elem_of_lookup_2, H.
Qed.

Lemma setCell_keeps i name value s : keeps s (setCell i name value s).
Proof.
  split; [reflexivity|]. cbn [rows setCell].
  destruct (rows s !! i) as [r|] eqn:Hr; [|reflexivity].
  rewrite list_fmap_insert. apply list_insert_id.
  now rewrite list_lookup_fmap, Hr.
Qed.

Lemma appendRow_grows s : grows s (appendRow s).
Proof.
  split; [reflexivity|]. exists [meta (newRow (columnModel s) (nextRowKey s))].
  cbn [rows appendRow]. rewrite fmap_app. split; [reflexivity|].
  constructor; [split; reflexivity | constructor].
Qed.

Lemma iter_appendRow_grows n s : grows s (Nat.iter n appendRow s).
Proof.
  induction n as [|n IH]; [apply grows_refl|].
  rewrite Nat.iter_succ. eapply grows_trans; [exact IH | apply appendRow_grows].
Qed.

Lemma ensureRow_grows i s : grows s (ensureRow i s).
Proof. apply iter_appendRow_grows. Qed.

Lemma iter_appendRow_length n s :
  length (rows (Nat.iter n appendRow s)) = length (rows s) + n.
Proof.
  induction n as [|n IH]; [cbn; lia|].
  rewrite Nat.iter_succ. cbn [rows appendRow]. rewrite length_app, IH. cbn. lia.
Qed.

Lemma ensureRow_length i s :
  length (rows (ensureRow i s)) = Nat.max (length (rows s)) (S i).
Proof. unfold ensureRow. rewrite iter_appendRow_length. lia. Qed.

Lemma ensureRow_id i s : i < length (rows s) -> ensureRow i s = s.
Proof.
  intros H. unfold ensureRow.
  replace (S i - length (rows s)) with 0 by lia. reflexivity.
Qed.

Lemma pasteCell_grows i k v s : grows s (pasteCell i k v s).
Proof.
  unfold pasteCell.
  destruct (visibleColumns (columnModel s) !! k) as [c|]; [|apply grows_refl].
  cbn zeta. destruct (writable _ i c); [|apply ensureRow_grows].
  eapply grows_trans; [apply ensureRow_grows|].
  apply keeps_grows, setCell_keeps.
Qed.

Lemma pasteRow_grows i k vs s : grows s (pasteRow i k vs s).
Proof.
  revert k s. induction vs as [|v vs IH]; intros k s; [apply grows_refl|].
  cbn [pasteRow]. eapply grows_trans; [apply pasteCell_grows | apply IH].
Qed.

Lemma pasteRows_grows i k m s : grows s (pasteRows i k m s).
Proof.
  revert i s. induction m as [|vs m IH]; intros i s; [apply grows_refl|].
  cbn [pasteRows]. eapply grows_trans; [apply pasteRow_grows | apply IH].
Qed.

Lemma paste_grows m a s : grows s (paste m a s).
Proof. apply pasteRows_grows. Qed.

Lemma clearCell_keeps i k s : keeps s (clearCell i k s).
Proof.
  unfold clearCell.
  destruct (visibleColumns (columnModel s) !! k) as [c|]; [|apply keeps_refl].
  destruct (writable _ i c); [apply setCell_keeps | apply keeps_refl].
Qed.

Lemma fold_keeps {A} (f : Store -> A -> Store) (l : list A) s :
  (forall s0 x, keeps s0 (f s0 x)) -> keeps s (fold_left f l s).
Proof.
  intros Hf. revert s. induction l as [|x l IH]; intros s; [apply keeps_refl|].
  cbn [fold_left]. eapply keeps_trans; [apply Hf | apply IH].
Qed.

Lemma delRange_keeps range s : keeps s (delRange range s).
Proof.
  unfold delRange. destruct (range_row range) as [r0 r1].
  destruct (range_column range) as [c0 c1].
  apply fold_keeps. intros s0 i. apply fold_keeps. intros s1 k.
  apply clearCell_keeps.
Qed.

Lemma del_keeps key name s : keeps s (del key name s).
Proof.
  unfold del. destruct (indexOfRowKey key (rows s)); [|apply keeps_refl].
  destruct (indexOfColumnName name _); [apply clearCell_keeps | apply keeps_refl].
Qed.

(** Who owns which cell is settled by the metadata, so it never changes. *)
Lemma owns_grows s s' name i j :
  grows s s' -> owns (rows s') name i j = owns (rows s) name i j.
Proof.
  intros Hg. unfold owns.
  destruct (rows s !! j) as [r|] eqn:Hr.
  - destruct (grows_lookup_old _ _ _ _ Hg Hr) as (r' & -> & Hm).
    injection Hm as _ _ ->. reflexivity.
  - destruct (rows s' !! j) as [r'|] eqn:Hr'; [|reflexivity].
    destruct (grows_lookup_new _ _ _ _ Hg Hr Hr') as [_ Hspan].
    cbn in Hspan. rewrite Hspan, lookup_empty. reflexivity.
Qed.

Lemma find_ext {A} (f g : A -> bool) (l : list A) :
  (forall x, f x = g x) -> List.find f l = List.find g l.
Proof.
  intros H. induction l as [|x l IH]; [reflexivity|].
  cbn [List.find]. now rewrite H, IH.
Qed.

Lemma mainRowOf_grows s s' name i :
  grows s s' -> mainRowOf (rows s') name i = mainRowOf (rows s) name i.
Proof.
  intros Hg. unfold mainRowOf. apply find_ext. intros j.
  now apply owns_grows.
Qed.

Lemma isFollower_grows s s' name i :
  grows s s' -> isFollower (rows s') name i = isFollower (rows s) name i.
Proof. intros Hg. unfold isFollower. now rewrite (mainRowOf_grows _ _ _ _ Hg). Qed.

(** **** Cells aimed past the last visible column *)

Lemma grows_visibleCount s s' : grows s s' -> visibleCount s' = visibleCount s.
Proof. intros [Hc _]. unfold visibleCount. now rewrite Hc. Qed.

Lemma pasteRow_out i k vs s : visibleCount s <= k -> pasteRow i k vs s = s.
Proof.
  revert k. induction vs as [|v vs IH]; intros k Hk; [reflexivity|].
  cbn [pasteRow]. unfold pasteCell at 1.
  rewrite lookup_ge_None_2 by exact Hk. apply IH. lia.
Qed.

Lemma pasteRow_take i k vs s :
  pasteRow i k (take (visibleCount s - k) vs) s = pasteRow i k vs s.
Proof.
  revert k s. induction vs as [|v vs IH]; intros k s.
  - now rewrite take_nil.
  - destruct (visibleCount s - k) as [|n] eqn:E.
    + cbn [take pasteRow]. symmetry.
      apply (pasteRow_out i k (v :: vs)). lia.
    + cbn [take pasteRow]. rewrite <- IH.
      rewrite (grows_visibleCount _ _ (pasteCell_grows i k v s)).
      now replace (visibleCount s - S k) with n by lia.
Qed.

Lemma pasteRows_take i k m s :
  pasteRows i k (take (visibleCount s - k) <$> m) s = pasteRows i k m s.
Proof.
  revert i s. induction m as [|vs m IH]; intros i s; [reflexivity|].
  cbn [fmap list_fmap pasteRows]. rewrite pasteRow_take.
  rewrite <- IH.
  now rewrite (grows_visibleCount _ _ (pasteRow_grows i k vs s)).
Qed.

Lemma pasteRows_out i k m s : visibleCount s <= k -> pasteRows i k m s = s.
Proof.
  revert i. induction m as [|vs m IH]; intros i Hk; [reflexivity|].
  cbn [pasteRows]. rewrite pasteRow_out by exact Hk. now apply IH.
Qed.

(** C5: the cells of the matrix aimed at or past the visible column count
    are dropped: the paste is the paste of the matrix with each row cut to
    the columns that exist, so it does not depend on what the dropped cells
    hold (nothing wraps to the next row or is clamped into the last column);
    a paste that starts at or past the visible column count leaves the store
    as it is.  [paste] is a total function: there is no input on which it
    fails. *)
Theorem paste_drops_cells_past_last_column
    (m : list (list string)) (a : Address) (s : Store) :
  let n := visibleCount s - column a in
  paste m a s = paste (take n <$> m) a s
  /\ (forall m' : list (list string),
         take n <$> m' = take n <$> m -> paste m' a s = paste m a s)
  /\ (visibleCount s <= column a -> paste m a s = s).
Proof.
  cbn zeta. unfold paste. split; [|split].
  - now rewrite pasteRows_take.
  - intros m' Hm'.
    rewrite <- (pasteRows_take _ _ m'), <- (pasteRows_take _ _ m).
    now rewrite Hm'.
  - apply pasteRows_out.
Qed.

(** **** Which cell a step writes, and which cells it leaves *)

Lemma storedValue_cellOrDefault s i name :
  i < length (rows s) -> storedValue (rows s) i name = cellOrDefault s i name.
Proof.
  intros Hi. unfold storedValue, cellOrDefault.
  destruct (rows s !! i) eqn:E; [reflexivity|].
  apply lookup_ge_None in E. lia.
Qed.

Lemma rowDisabled_grows s s' i :
  grows s s' -> rowDisabled s' i = rowDisabled s i.
Proof.
  intros Hg. unfold rowDisabled.
  destruct (rows s !! i) as [r|] eqn:Hr.
  - destruct (grows_lookup_old _ _ _ _ Hg Hr) as (r' & -> & Hm).
    unfold meta in Hm. congruence.
  - destruct (rows s' !! i) as [r'|] eqn:Hr'; [|reflexivity].
    now destruct (grows_lookup_new _ _ _ _ Hg Hr Hr') as [Hd _].
Qed.

Lemma open_grows s s' i c : grows s s' -> open s' i c = open s i c.
Proof.
  intros Hg. unfold open.
  now rewrite (rowDisabled_grows _ _ _ Hg), (isFollower_grows _ _ _ _ Hg).
Qed.

Lemma hits_grows s s' i k i' name :
  grows s s' -> hits s' i k i' name = hits s i k i' name.
Proof.
  intros Hg. unfold hits. destruct Hg as [Hc Hm]. rewrite Hc.
  destruct (visibleColumns (columnModel s) !! k); [|reflexivity].
  now rewrite (open_grows s s' i c (conj Hc Hm)).
Qed.

Lemma writable_open s i c :
  i < length (rows s) -> writable (rows s) i c = open s i c.
Proof.
  intros Hi. unfold writable, open, rowDisabled.
  destruct (rows s !! i) eqn:E; [reflexivity|].
  apply lookup_ge_None in E. lia.
Qed.

(** The step on one cell, by cases on whether the cell is open. *)
Lemma pasteCell_open i k v s :
  pasteCell i k v s
  = match visibleColumns (columnModel s) !! k with
    | Some c =>
        if open s i c then setCell i (columnName c) v (ensureRow i s)
        else ensureRow i s
    | None => s
    end.
Proof.
  unfold pasteCell.
  destruct (visibleColumns (columnModel s) !! k) as [c|]; [|reflexivity].
  cbn zeta. rewrite writable_open by (rewrite ensureRow_length; lia).
  now rewrite (open_grows _ _ _ _ (ensureRow_grows i s)).
Qed.

Lemma appendRow_cellOrDefault s i name :
  cellOrDefault (appendRow s) i name = cellOrDefault s i name.
Proof.
  unfold cellOrDefault. cbn [rows columnModel appendRow].
  destruct (decide (i < length (rows s))) as [Hlt|Hge].
  - now rewrite lookup_app_l.
  - rewrite lookup_app_r by lia.
    rewrite (lookup_ge_None_2 (rows s)) by lia.
    destruct (i - length (rows s)) as [|d]; reflexivity.
Qed.

Lemma ensureRow_cellOrDefault j s i name :
  cellOrDefault (ensureRow j s) i name = cellOrDefault s i name.
Proof.
  unfold ensureRow. induction (S j - length (rows s)) as [|n IH];
    [reflexivity|].
  rewrite Nat.iter_succ, appendRow_cellOrDefault. exact IH.
Qed.

Lemma setCell_cellOrDefault_ne i name v s i' name' :
  Nat.eqb i' i && String.eqb name name' = false ->
  cellOrDefault (setCell i name v s) i' name' = cellOrDefault s i' name'.
Proof.
  intros Hne. unfold cellOrDefault. cbn [rows columnModel setCell].
  destruct (rows s !! i) as [r|] eqn:Hr; [|reflexivity].
  destruct (decide (i' = i)) as [->|Hi].
  - rewrite Nat.eqb_refl in Hne. cbn in Hne. apply String.eqb_neq in Hne.
    rewrite list_lookup_insert_eq by (eapply lookup_lt_Some, Hr).
    rewrite Hr. cbn [cells]. now rewrite lookup_insert_ne.
  - now rewrite list_lookup_insert_ne.
Qed.

Lemma setCell_cellOrDefault_eq i name v s :
  i < length (rows s) -> cellOrDefault (setCell i name v s) i name = Some v.
Proof.
  intros Hi. unfold cellOrDefault. cbn [rows setCell].
  destruct (rows s !! i) as [r|] eqn:Hr.
  - rewrite list_lookup_insert_eq by exact Hi. cbn [cells].
    apply lookup_insert_eq.
  - apply lookup_ge_None in Hr. lia.
Qed.

(** A step leaves every cell it does not write. *)
Lemma pasteCell_keep i k v s i' name :
  hits s i k i' name = false ->
  cellOrDefault (pasteCell i k v s) i' name = cellOrDefault s i' name.
Proof.
  intros Hh. rewrite pasteCell_open. unfold hits in Hh.
  destruct (visibleColumns (columnModel s) !! k) as [c|]; [|reflexivity].
  destruct (open s i c).
  - rewrite andb_true_r in Hh.
    rewrite setCell_cellOrDefault_ne by exact Hh.
    apply ensureRow_cellOrDefault.
  - apply ensureRow_cellOrDefault.
Qed.

(** A step aimed at an open cell writes its value there. *)
Lemma pasteCell_hit i k v s c :
  visibleColumns (columnModel s) !! k = Some c -> open s i c = true ->
  cellOrDefault (pasteCell i k v s) i (columnName c) = Some v.
Proof.
  intros Hc Ho. rewrite pasteCell_open, Hc, Ho.
  apply setCell_cellOrDefault_eq. rewrite ensureRow_length. lia.
Qed.

Lemma pasteRow_keep i k vs s i' name :
  (forall c, c < length vs -> hits s i (k + c) i' name = false) ->
  cellOrDefault (pasteRow i k vs s) i' name = cellOrDefault s i' name.
Proof.
  revert k s. induction vs as [|v vs IH]; intros k s Hh; [reflexivity|].
  cbn [pasteRow]. rewrite IH.
  - apply pasteCell_keep. specialize (Hh 0). rewrite Nat.add_0_r in Hh.
    apply Hh. cbn. lia.
  - intros c Hc. rewrite (hits_grows _ _ _ _ _ _ (pasteCell_grows i k v s)).
    replace (S k + c) with (k + S c) by lia. apply Hh. cbn. lia.
Qed.

Lemma pasteRows_keep i k m s i' name :
  (forall r vs c, m !! r = Some vs -> c < length vs ->
                  hits s (i + r) (k + c) i' name = false) ->
  cellOrDefault (pasteRows i k m s) i' name = cellOrDefault s i' name.
Proof.
  revert i s. induction m as [|vs m IH]; intros i s Hh; [reflexivity|].
  cbn [pasteRows]. rewrite IH.
  - apply pasteRow_keep. intros c Hc.
    specialize (Hh 0 vs c eq_refl Hc). now rewrite Nat.add_0_r in Hh.
  - intros r vs' c Hr Hc.
    rewrite (hits_grows _ _ _ _ _ _ (pasteRow_grows i k vs s)).
    replace (S i + r) with (i + S r) by lia. now apply (Hh (S r) vs' c).
Qed.

Lemma visibleNamesUnique_grows s s' :
  grows s s' -> visibleNamesUnique s -> visibleNamesUnique s'.
Proof. intros [Hc _]. unfold visibleNamesUnique. now rewrite Hc. Qed.

Lemma hits_other_column s i k k' i' c :
  visibleNamesUnique s ->
  visibleColumns (columnModel s) !! k = Some c -> k' <> k ->
  hits s i k' i' (columnName c) = false.
Proof.
  intros Hnd Hc Hk. unfold hits.
  destruct (visibleColumns (columnModel s) !! k') as [c'|] eqn:Hc';
    [|reflexivity].
  destruct (String.eqb (columnName c') (columnName c)) eqn:E;
    [|now rewrite andb_false_r].
  apply String.eqb_eq in E. exfalso. apply Hk.
  apply (NoDup_lookup _ k' k (columnName c) Hnd);
    rewrite list_lookup_fmap; [rewrite Hc' | rewrite Hc]; cbn; congruence.
Qed.

Lemma hits_other_row s i k i' name :
  i' <> i -> hits s i k i' name = false.
Proof.
  intros Hi. unfold hits.
  destruct (visibleColumns (columnModel s) !! k); [|reflexivity].
  now rewrite (proj2 (Nat.eqb_neq i' i) Hi).
Qed.

(** Within a row, the value aimed at an open cell is there at the end. *)
Lemma pasteRow_hit i k vs s c v col :
  visibleNamesUnique s ->
  vs !! c = Some v ->
  visibleColumns (columnModel s) !! (k + c) = Some col ->
  open s i col = true ->
  cellOrDefault (pasteRow i k vs s) i (columnName col) = Some v.
Proof.
  revert k s c. induction vs as [|v0 vs IH]; intros k s c Hnd Hv Hcol Ho;
    [discriminate|].
  pose proof (pasteCell_grows i k v0 s) as Hg.
  cbn [pasteRow]. destruct c as [|c].
  - injection Hv as ->. rewrite Nat.add_0_r in Hcol.
    rewrite pasteRow_keep; [now apply pasteCell_hit|].
    intros c' _. rewrite (hits_grows _ _ _ _ _ _ Hg).
    apply (hits_other_column s i k); [assumption..|lia].
  - apply (IH (S k) _ c).
    + exact (visibleNamesUnique_grows _ _ Hg Hnd).
    + exact Hv.
    + destruct Hg as [-> _]. now replace (S k + c) with (k + S c) by lia.
    + now rewrite (open_grows _ _ _ _ Hg).
Qed.

(** The value aimed at an open cell is there when the paste is over. *)
Lemma pasteRows_hit i k m s r c vs v col :
  visibleNamesUnique s ->
  m !! r = Some vs -> vs !! c = Some v ->
  visibleColumns (columnModel s) !! (k + c) = Some col ->
  open s (i + r) col = true ->
  cellOrDefault (pasteRows i k m s) (i + r) (columnName col) = Some v.
Proof.
  revert i s r. induction m as [|vs0 m IH]; intros i s r Hnd Hr Hv Hcol Ho;
    [discriminate|].
  pose proof (pasteRow_grows i k vs0 s) as Hg.
  cbn [pasteRows]. destruct r as [|r].
  - injection Hr as ->. rewrite Nat.add_0_r in *.
    rewrite pasteRows_keep; [now apply (pasteRow_hit i k vs s c)|].
    intros r' vs' c' _ _. apply hits_other_row. lia.
  - replace (i + S r) with (S i + r) in * by lia.
    apply (IH (S i) _ r).
    + exact (visibleNamesUnique_grows _ _ Hg Hnd).
    + exact Hr.
    + exact Hv.
    + now destruct Hg as [-> _].
    + now rewrite (open_grows _ _ _ _ Hg).
Qed.

(** **** A value aimed at a closed cell does not matter *)

Lemma pasteCell_closed i k v v' s c :
  visibleColumns (columnModel s) !! k = Some c -> open s i c = false ->
  pasteCell i k v s = pasteCell i k v' s.
Proof. intros Hc Ho. now rewrite !pasteCell_open, Hc, Ho. Qed.

Lemma pasteRow_closed i k vs s c v' col :
  visibleColumns (columnModel s) !! (k + c) = Some col ->
  open s i col = false ->
  pasteRow i k (<[ c := v' ]> vs) s = pasteRow i k vs s.
Proof.
  revert k s c. induction vs as [|v0 vs IH]; intros k s c Hcol Ho;
    [reflexivity|].
  destruct c as [|c]; cbn [insert list_insert pasteRow].
  - rewrite Nat.add_0_r in Hcol.
    now rewrite (pasteCell_closed i k v' v0 s col Hcol Ho).
  - pose proof (pasteCell_grows i k v0 s) as Hg.
    apply (IH (S k) _ c).
    + destruct Hg as [-> _]. now replace (S k + c) with (k + S c) by lia.
    + now rewrite (open_grows _ _ _ _ Hg).
Qed.

Lemma pasteRows_closed i k m s r c v' col :
  visibleColumns (columnModel s) !! (k + c) = Some col ->
  open s (i + r) col = false ->
  pasteRows i k (alter (<[ c := v' ]>) r m) s = pasteRows i k m s.
Proof.
  revert i s r. induction m as [|vs0 m IH]; intros i s r Hcol Ho;
    [reflexivity|].
  destruct r as [|r]; cbn [alter list_alter pasteRows].
  - rewrite Nat.add_0_r in Ho.
    now rewrite (pasteRow_closed i k vs0 s c v' col Hcol Ho).
  - pose proof (pasteRow_grows i k vs0 s) as Hg.
    replace (i + S r) with (S i + r) in Ho by lia.
    apply (IH (S i) _ r).
    + now destruct Hg as [-> _].
    + now rewrite (open_grows _ _ _ _ Hg).
Qed.

(** **** How many rows there are after a paste *)

Lemma pasteCell_length i k v s :
  length (rows (pasteCell i k v s))
  = match visibleColumns (columnModel s) !! k with
    | Some _ => Nat.max (length (rows s)) (S i)
    | None => length (rows s)
    end.
Proof.
  rewrite pasteCell_open.
  destruct (visibleColumns (columnModel s) !! k) as [c|]; [|reflexivity].
  destruct (open s i c).
  - rewrite (keeps_length _ _ (setCell_keeps _ _ _ _)). apply ensureRow_length.
  - apply ensureRow_length.
Qed.




(** **** Deleting *)

Lemma keeps_hits s s' i k i' name :
  keeps s s' -> hits s' i k i' name = hits s i k i' name.
Proof. intros Hk. apply hits_grows, keeps_grows, Hk. Qed.

Lemma clearCell_keep i k s i' name :
  hits s i k i' name = false ->
  cellOrDefault (clearCell i k s) i' name = cellOrDefault s i' name.
Proof.
  intros Hh. unfold clearCell. unfold hits in Hh.
  destruct (visibleColumns (columnModel s) !! k) as [c|]; [|reflexivity].
  destruct (writable (rows s) i c) eqn:Hw; [|reflexivity].
  apply setCell_cellOrDefault_ne.
  assert (i < length (rows s)) as Hi.
  { unfold writable in Hw. destruct (rows s !! i) eqn:E; [|discriminate].
    eapply lookup_lt_Some, E. }
  rewrite (writable_open s i c Hi) in Hw. now rewrite Hw, andb_true_r in Hh.
Qed.

Lemma fold_clearCell_keep (f : Store -> nat -> Store) (l : list nat) s i' name :
  (forall s0 x, keeps s0 (f s0 x)) ->
  (forall s0 x, (forall i k, hits s0 i k i' name = false) ->
                cellOrDefault (f s0 x) i' name = cellOrDefault s0 i' name) ->
  (forall i k, hits s i k i' name = false) ->
  cellOrDefault (fold_left f l s) i' name = cellOrDefault s i' name.
Proof.
  intros Hkeeps Hf. revert s. induction l as [|x l IH]; intros s Hh;
    [reflexivity|].
  cbn [fold_left]. rewrite IH; [now apply Hf|].
  intros i k. now rewrite (keeps_hits _ _ _ _ _ _ (Hkeeps s x)).
Qed.

Lemma delRange_keep range s i' name :
  (forall i k, hits s i k i' name = false) ->
  cellOrDefault (delRange range s) i' name = cellOrDefault s i' name.
Proof.
  unfold delRange. destruct (range_row range) as [r0 r1].
  destruct (range_column range) as [c0 c1].
  apply fold_clearCell_keep.
  - intros s0 i. apply fold_keeps. intros s1 k. apply clearCell_keeps.
  - intros s0 i Hh. apply fold_clearCell_keep; [| |exact Hh].
    + intros s1 k. apply clearCell_keeps.
    + intros s1 k Hh1. now apply clearCell_keep.
Qed.

Lemma del_keep key cn s i' name :
  (forall i k, hits s i k i' name = false) ->
  cellOrDefault (del key cn s) i' name = cellOrDefault s i' name.
Proof.
  intros Hh. unfold del. destruct (indexOfRowKey key (rows s)); [|reflexivity].
  destruct (indexOfColumnName cn _); [now apply clearCell_keep | reflexivity].
Qed.

Lemma paste_keep m a s i' name :
  (forall i k, hits s i k i' name = false) ->
  cellOrDefault (paste m a s) i' name = cellOrDefault s i' name.
Proof. intros Hh. apply pasteRows_keep. intros. apply Hh. Qed.

(** **** Cells that no step writes *)

Lemma columnEditable_false_hasEditOption s name c :
  columnEditable s name = false ->
  c ∈ visibleColumns (columnModel s) -> columnName c = name ->
  hasEditOption c = false.
Proof.
  intros He Hc Hn. unfold columnEditable in He.
  destruct (hasEditOption c) eqn:E; [|reflexivity].
  assert (existsb (fun c => String.eqb (columnName c) name && hasEditOption c)
            (visibleColumns (columnModel s)) = true) as Hex; [|congruence].
  apply existsb_exists. exists c. split; [now apply list_elem_of_In|].
  now rewrite E, (proj2 (String.eqb_eq _ _) Hn).
Qed.

Lemma closed_no_hits s i' name :
  rowDisabled s i' = true \/ columnEditable s name = false
  \/ isFollower (rows s) name i' = true ->
  forall i k, hits s i k i' name = false.
Proof.
  intros Hx i k. unfold hits.
  destruct (visibleColumns (columnModel s) !! k) as [c|] eqn:Hc; [|reflexivity].
  destruct (Nat.eqb_spec i' i) as [->|]; [|reflexivity].
  destruct (String.eqb_spec (columnName c) name) as [Hn|]; [|reflexivity].
  cbn [andb]. unfold open. destruct Hx as [Hd|[He|Hf]].
  - now rewrite Hd.
  - rewrite (columnEditable_false_hasEditOption s name c He);
      [now rewrite andb_false_r | eapply list_elem_of_lookup_2, Hc | exact Hn].
  - rewrite Hn, Hf. now rewrite andb_false_r.
Qed.

Lemma getValue_main s i name j :
  mainRowOf (rows s) name i = Some j ->
  getValue s i name = storedValue (rows s) j name.
Proof. intros H. unfold getValue. now rewrite H. Qed.

Lemma getValue_own s i name :
  isFollower (rows s) name i = false ->
  getValue s i name = storedValue (rows s) i name.
Proof.
  unfold isFollower, getValue.
  destruct (mainRowOf (rows s) name i); [discriminate | reflexivity].
Qed.

Lemma mainRowOf_lt rs name i j : mainRowOf rs name i = Some j -> j < i.
Proof.
  unfold mainRowOf. intros H. apply find_some in H as [Hin _].
  apply in_seq in Hin. lia.
Qed.

(** What is stored in an existing row for a column that no step writes. *)
Lemma storedValue_kept s s' i name :
  grows s s' -> i < length (rows s) ->
  cellOrDefault s' i name = cellOrDefault s i name ->
  storedValue (rows s') i name = storedValue (rows s) i name.
Proof.
  intros Hg Hi Hc. pose proof (grows_length _ _ Hg).
  rewrite !storedValue_cellOrDefault by lia. exact Hc.
Qed.

(** An operation that grows the store and keeps what the closed cells
    store also keeps what [getValue] reads in a column that cannot be
    edited, and in a disabled row for a cell that is no follower. *)
Lemma getValue_kept s s' i name :
  grows s s' ->
  (forall i' name', (forall i0 k, hits s i0 k i' name' = false) ->
                    cellOrDefault s' i' name' = cellOrDefault s i' name') ->
  i < length (rows s) ->
  columnEditable s name = false
  \/ (rowDisabled s i = true /\ isFollower (rows s) name i = false) ->
  getValue s' i name = getValue s i name.
Proof.
  intros Hg Hkeep Hi [He|[Hd Hf]].
  - unfold getValue. rewrite (mainRowOf_grows _ _ _ _ Hg).
    destruct (mainRowOf (rows s) name i) as [j|] eqn:Hj.
    + apply mainRowOf_lt in Hj.
      apply (storedValue_kept _ _ _ _ Hg); [lia|].
      apply Hkeep, closed_no_hits. auto.
    + apply (storedValue_kept _ _ _ _ Hg Hi).
      apply Hkeep, closed_no_hits. auto.
  - rewrite !getValue_own;
      [|exact Hf | now rewrite (isFollower_grows _ _ _ _ Hg)].
    apply (storedValue_kept _ _ _ _ Hg Hi).
    apply Hkeep, closed_no_hits. auto.
Qed.

Lemma paste_keep_unaimed m a s i' name :
  ~ aimedAt m a s i' name ->
  cellOrDefault (paste m a s) i' name = cellOrDefault s i' name.
Proof.
  intros Hna. apply pasteRows_keep. intros r vs c Hr Hc.
  destruct (hits s (row a + r) (column a + c) i' name) eqn:Hh; [|reflexivity].
  exfalso. apply Hna. unfold hits in Hh.
  destruct (visibleColumns (columnModel s) !! (column a + c)) as [col|] eqn:Hcol;
    [|discriminate].
  apply andb_true_iff in Hh as [Hh Ho]. apply andb_true_iff in Hh as [Hi Hn].
  apply Nat.eqb_eq in Hi. apply String.eqb_eq in Hn. subst i'.
  exists r, vs, c, col. auto 10.
Qed.

(** **** What the deletes clear, and what they leave *)

Lemma indexOfRowKey_Some key rs i :
  indexOfRowKey key rs = Some i ->
  exists r, rs !! i = Some r /\ rowKey r = key.
Proof.
  revert i. induction rs as [|r rs IH]; intros i H; [discriminate|].
  cbn [indexOfRowKey] in H. destruct (Nat.eqb_spec (rowKey r) key) as [Hk|Hk].
  - injection H as <-. exists r. auto.
  - destruct (indexOfRowKey key rs) as [j|]; [|discriminate].
    injection H as <-. exact (IH j eq_refl).
Qed.

Lemma indexOfRowKey_first key rs i j r :
  indexOfRowKey key rs = Some i -> j < i -> rs !! j = Some r ->
  rowKey r <> key.
Proof.
  revert i j. induction rs as [|r0 rs IH]; intros i j H Hj Hr; [discriminate|].
  cbn [indexOfRowKey] in H. destruct (Nat.eqb_spec (rowKey r0) key) as [Hk|Hk].
  - injection H as <-. lia.
  - destruct (indexOfRowKey key rs) as [i0|] eqn:E; [|discriminate].
    injection H as <-. destruct j as [|j].
    + cbn in Hr. congruence.
    + cbn in Hr. apply (IH i0 j eq_refl); [lia | exact Hr].
Qed.

Lemma indexOfColumnName_Some name cs k :
  indexOfColumnName name cs = Some k ->
  exists c, cs !! k = Some c /\ columnName c = name.
Proof.
  revert k. induction cs as [|c cs IH]; intros k H; [discriminate|].
  cbn [indexOfColumnName] in H.
  destruct (String.eqb_spec (columnName c) name) as [Hn|Hn].
  - injection H as <-. exists c. auto.
  - destruct (indexOfColumnName name cs) as [j|]; [|discriminate].
    injection H as <-. exact (IH j eq_refl).
Qed.

Lemma indexOfColumnName_first name cs k j c :
  indexOfColumnName name cs = Some k -> j < k -> cs !! j = Some c ->
  columnName c <> name.
Proof.
  revert k j. induction cs as [|c0 cs IH]; intros k j H Hj Hc; [discriminate|].
  cbn [indexOfColumnName] in H.
  destruct (String.eqb_spec (columnName c0) name) as [Hn|Hn].
  - injection H as <-. lia.
  - destruct (indexOfColumnName name cs) as [k0|] eqn:E; [|discriminate].
    injection H as <-. destruct j as [|j].
    + cbn in Hc. congruence.
    + cbn in Hc. apply (IH k0 j eq_refl); [lia | exact Hc].
Qed.

Lemma indexOfRowKey_intro key rs i r :
  rs !! i = Some r -> rowKey r = key ->
  (forall j r', j < i -> rs !! j = Some r' -> rowKey r' <> key) ->
  indexOfRowKey key rs = Some i.
Proof.
  revert i. induction rs as [|r0 rs IH]; intros i Hr Hk Hfirst; [discriminate|].
  cbn [indexOfRowKey]. destruct i as [|i].
  - cbn in Hr. injection Hr as ->. now rewrite (proj2 (Nat.eqb_eq _ _) Hk).
  - assert (rowKey r0 <> key) as Hne by (apply (Hfirst 0 r0); [lia | reflexivity]).
    rewrite (proj2 (Nat.eqb_neq _ _) Hne).
    rewrite (IH i); [reflexivity | exact Hr | exact Hk |].
    intros j r' Hj Hr'. apply (Hfirst (S j) r'); [lia | exact Hr'].
Qed.

Lemma indexOfColumnName_intro name cs k c :
  cs !! k = Some c -> columnName c = name ->
  (forall j c', j < k -> cs !! j = Some c' -> columnName c' <> name) ->
  indexOfColumnName name cs = Some k.
Proof.
  revert k. induction cs as [|c0 cs IH]; intros k Hc Hn Hfirst; [discriminate|].
  cbn [indexOfColumnName]. destruct k as [|k].
  - cbn in Hc. injection Hc as ->. now rewrite (proj2 (String.eqb_eq _ _) Hn).
  - assert (columnName c0 <> name) as Hne
      by (apply (Hfirst 0 c0); [lia | reflexivity]).
    rewrite (proj2 (String.eqb_neq _ _) Hne).
    rewrite (IH k); [reflexivity | exact Hc | exact Hn |].
    intros j c' Hj Hc'. apply (Hfirst (S j) c'); [lia | exact Hc'].
Qed.

(** The steps of one row of a range leave a cell that none of them hits. *)
Lemma clearRow_keep_in i (ks : list nat) s i' name :
  (forall k, In k ks -> hits s i k i' name = false) ->
  cellOrDefault (fold_left (fun acc k => clearCell i k acc) ks s) i' name
  = cellOrDefault s i' name.
Proof.
  revert s. induction ks as [|k ks IH]; intros s Hh; [reflexivity|].
  cbn [fold_left]. rewrite IH.
  - apply clearCell_keep, Hh. now left.
  - intros k' Hk'. rewrite (keeps_hits _ _ _ _ _ _ (clearCell_keeps i k s)).
    apply Hh. now right.
Qed.

Lemma clearRow_keeps i (ks : list nat) s :
  keeps s (fold_left (fun acc k => clearCell i k acc) ks s).
Proof. apply fold_keeps. intros s0 k. apply clearCell_keeps. Qed.

Lemma clearRows_keep_in (ns ks : list nat) s i' name :
  (forall i k, In i ns -> In k ks -> hits s i k i' name = false) ->
  cellOrDefault
    (fold_left
       (fun acc i => fold_left (fun acc' k => clearCell i k acc') ks acc) ns s)
    i' name
  = cellOrDefault s i' name.
Proof.
  revert s. induction ns as [|i ns IH]; intros s Hh; [reflexivity|].
  cbn [fold_left]. rewrite IH.
  - apply clearRow_keep_in. intros k Hk. apply Hh; [now left | exact Hk].
  - intros i0 k Hi0 Hk. rewrite (keeps_hits _ _ _ _ _ _ (clearRow_keeps i ks s)).
    apply Hh; [now right | exact Hk].
Qed.

(** A range delete leaves every cell that no step of the range hits. *)
Lemma delRange_keep_outside range s i' name :
  ~ clearedBy range s i' name ->
  cellOrDefault (delRange range s) i' name = cellOrDefault s i' name.
Proof.
  intros Hn. unfold delRange. unfold clearedBy in Hn.
  destruct (range_row range) as [r0 r1].
  destruct (range_column range) as [c0 c1]. cbn [fst snd] in Hn.
  apply clearRows_keep_in. intros i k Hi Hk.
  apply in_seq in Hi. apply in_seq in Hk.
  destruct (hits s i k i' name) eqn:Hh; [|reflexivity].
  exfalso. apply Hn. unfold hits in Hh.
  destruct (visibleColumns (columnModel s) !! k) as [col|] eqn:Hcol;
    [|discriminate].
  apply andb_true_iff in Hh as [Hh Ho]. apply andb_true_iff in Hh as [Hi' Hname].
  apply Nat.eqb_eq in Hi'. apply String.eqb_eq in Hname. subst i'.
  exists k, col. repeat split; try assumption; lia.
Qed.

(** A single delete leaves every cell but the one it addresses. *)
Lemma del_keep_outside key cn s i' name :
  ~ deletedBy key cn s i' name ->
  cellOrDefault (del key cn s) i' name = cellOrDefault s i' name.
Proof.
  intros Hn. unfold del.
  destruct (indexOfRowKey key (rows s)) as [i|] eqn:Hi; [|reflexivity].
  destruct (indexOfColumnName cn (visibleColumns (columnModel s))) as [k|]
    eqn:Hk; [|reflexivity].
  apply clearCell_keep.
  destruct (hits s i k i' name) eqn:Hh; [|reflexivity].
  exfalso. apply Hn. unfold hits in Hh.
  destruct (indexOfColumnName_Some _ _ _ Hk) as (col & Hcol & Hcn).
  destruct (indexOfRowKey_Some _ _ _ Hi) as (r & Hr & Hkey).
  rewrite Hcol in Hh.
  apply andb_true_iff in Hh as [Hh Ho]. apply andb_true_iff in Hh as [Hi' Hname].
  apply Nat.eqb_eq in Hi'. apply String.eqb_eq in Hname. subst i'.
  exists r, k, col.
  split; [exact Hr|]. split; [exact Hkey|].
  split; [intros j r'; apply (indexOfRowKey_first _ _ _ _ _ Hi)|].
  split; [exact Hcol|]. split; [exact Hcn|].
  split; [intros j c'; apply (indexOfColumnName_first _ _ _ _ _ Hk)|].
  split; [congruence | exact Ho].
Qed.

(** A step aimed at an open cell of an existing row empties it. *)
Lemma clearCell_sets i k s col :
  visibleColumns (columnModel s) !! k = Some col ->
  i < length (rows s) -> open s i col = true ->
  cellOrDefault (clearCell i k s) i (columnName col) = Some "".
Proof.
  intros Hcol Hi Ho. unfold clearCell.
  rewrite Hcol, (writable_open s i col Hi), Ho.
  now apply setCell_cellOrDefault_eq.
Qed.

(** No step fills an empty cell again. *)
Lemma clearCell_stays i k s i' name :
  cellOrDefault s i' name = Some "" ->
  cellOrDefault (clearCell i k s) i' name = Some "".
Proof.
  intros He. unfold clearCell.
  destruct (visibleColumns (columnModel s) !! k) as [c|]; [|exact He].
  destruct (writable (rows s) i c) eqn:Hw; [|exact He].
  assert (i < length (rows s)) as Hi.
  { unfold writable in Hw. destruct (rows s !! i) eqn:E; [|discriminate].
    eapply lookup_lt_Some, E. }
  destruct (Nat.eqb i' i && String.eqb (columnName c) name) eqn:Hsame.
  - apply andb_true_iff in Hsame as [Hi' Hname].
    apply Nat.eqb_eq in Hi'. apply String.eqb_eq in Hname. subst i' name.
    now apply setCell_cellOrDefault_eq.
  - rewrite setCell_cellOrDefault_ne; [exact He | exact Hsame].
Qed.

Lemma clearRow_stays i (ks : list nat) s i' name :
  cellOrDefault s i' name = Some "" ->
  cellOrDefault (fold_left (fun acc k => clearCell i k acc) ks s) i' name
  = Some "".
Proof.
  revert s. induction ks as [|k ks IH]; intros s He; [exact He|].
  cbn [fold_left]. now apply IH, clearCell_stays.
Qed.

Lemma clearRows_stays (ns ks : list nat) s i' name :
  cellOrDefault s i' name = Some "" ->
  cellOrDefault
    (fold_left
       (fun acc i => fold_left (fun acc' k => clearCell i k acc') ks acc) ns s)
    i' name
  = Some "".
Proof.
  revert s. induction ns as [|i ns IH]; intros s He; [exact He|].
  cbn [fold_left]. now apply IH, clearRow_stays.
Qed.

Lemma keeps_open s s' i c : keeps s s' -> open s' i c = open s i c.
Proof. intros Hk. apply open_grows, keeps_grows, Hk. Qed.

Lemma clearRow_sets i (ks : list nat) s k col :
  In k ks ->
  visibleColumns (columnModel s) !! k = Some col ->
  i < length (rows s) -> open s i col = true ->
  cellOrDefault (fold_left (fun acc k => clearCell i k acc) ks s) i
    (columnName col)
  = Some "".
Proof.
  revert s. induction ks as [|k0 ks IH]; intros s Hin Hcol Hi Ho; [easy|].
  cbn [fold_left]. destruct Hin as [->|Hin].
  - now apply clearRow_stays, clearCell_sets.
  - pose proof (clearCell_keeps i k0 s) as Hk. apply IH.
    + exact Hin.
    + destruct Hk as [Hc _]. now rewrite Hc.
    + now rewrite (keeps_length _ _ Hk).
    + now rewrite (keeps_open _ _ _ _ Hk).
Qed.

Lemma clearRows_sets (ns ks : list nat) s i k col :
  In i ns -> In k ks ->
  visibleColumns (columnModel s) !! k = Some col ->
  i < length (rows s) -> open s i col = true ->
  cellOrDefault
    (fold_left
       (fun acc i => fold_left (fun acc' k => clearCell i k acc') ks acc) ns s)
    i (columnName col)
  = Some "".
Proof.
  revert s. induction ns as [|i0 ns IH]; intros s Hin Hk Hcol Hi Ho; [easy|].
  cbn [fold_left]. destruct Hin as [->|Hin].
  - now apply clearRows_stays, (clearRow_sets i ks s k col).
  - pose proof (clearRow_keeps i0 ks s) as Hkeep. apply IH.
    + exact Hin.
    + exact Hk.
    + destruct Hkeep as [Hc _]. now rewrite Hc.
    + now rewrite (keeps_length _ _ Hkeep).
    + now rewrite (keeps_open _ _ _ _ Hkeep).
Qed.

(** A range delete empties every open cell of an existing row that it
    covers. *)
Lemma delRange_sets range s i' name :
  i' < length (rows s) -> clearedBy range s i' name ->
  cellOrDefault (delRange range s) i' name = Some "".
Proof.
  intros Hi (k & col & Hr & Hc & Hcol & <- & Ho). unfold delRange.
  destruct (range_row range) as [r0 r1].
  destruct (range_column range) as [c0 c1]. cbn [fst snd] in Hr, Hc.
  apply (clearRows_sets _ _ s i' k col); try assumption;
    apply in_seq; lia.
Qed.

(** A single delete empties the cell it addresses, if the cell is open. *)
Lemma del_sets key cn s i' name :
  deletedBy key cn s i' name ->
  i' < length (rows s)
  /\ cellOrDefault (del key cn s) i' name = Some "".
Proof.
  intros (r & k & col & Hr & Hkey & Hfirst & Hcol & Hcn & Hfirstc & <- & Ho).
  pose proof (lookup_lt_Some _ _ _ Hr) as Hi. split; [exact Hi|].
  unfold del.
  rewrite (indexOfRowKey_intro _ _ _ _ Hr Hkey Hfirst),
    (indexOfColumnName_intro _ _ _ _ Hcol Hcn Hfirstc).
  rewrite <- Hcn. now apply clearCell_sets.
Qed.

(** What [getValue] reads in a cell that is no follower, through an
    operation that keeps the rows and what the cell stores. *)
Lemma getValue_own_kept s s' i name :
  keeps s s' -> isFollower (rows s) name i = false ->
  cellOrDefault s' i name = cellOrDefault s i name ->
  getValue s' i name = getValue s i name.
Proof.
  intros Hk Hf Hc.
  rewrite !getValue_own;
    [|exact Hf | now rewrite (isFollower_grows _ _ _ _ (keeps_grows _ _ Hk))].
  destruct (decide (i < length (rows s))) as [Hi|Hi].
  - exact (storedValue_kept _ _ _ _ (keeps_grows _ _ Hk) Hi Hc).
  - unfold storedValue.
    rewrite (lookup_ge_None_2 (rows s)) by lia.
    rewrite (lookup_ge_None_2 (rows s'))
      by (rewrite (keeps_length _ _ Hk); lia).
    reflexivity.
Qed.

(** What [getValue] reads in an open cell of an existing row that an
    operation has emptied. *)
Lemma getValue_emptied s s' i col :
  keeps s s' -> i < length (rows s) -> open s i col = true ->
  cellOrDefault s' i (columnName col) = Some "" ->
  getValue s' i (columnName col) = Some "".
Proof.
  intros Hk Hi Ho Hc. unfold open in Ho.
  apply andb_true_iff in Ho as [_ Hf]. apply negb_true_iff in Hf.
  rewrite getValue_own
    by now rewrite (isFollower_grows _ _ _ _ (keeps_grows _ _ Hk)).
  rewrite storedValue_cellOrDefault by (rewrite (keeps_length _ _ Hk); lia).
  exact Hc.
Qed.

(** C1 (as the operations have it): a cell of an existing row keeps the
    value it reads as through every paste, range delete and single delete
    when its column cannot be edited, and also when its row is disabled and
    the cell is no row-span follower.  A value of the matrix aimed at a
    closed cell (disabled row, column without edit option, or follower) is
    dropped: the paste does not depend on it.  A follower reads as the cell
    of its main row, before and after each of the three operations.  Only
    the open cells in range are written: a cell that is no follower reads
    after a paste as before unless a value is aimed at it as at an open
    cell, after a range delete as before unless the range covers it as an
    open cell, and after a single delete as before unless it is the cell
    addressed and is open.  An open cell of an existing row that a range
    delete covers, or that a single delete addresses, reads as the empty
    string afterwards. *)
Theorem closed_cells_keep_their_value (s : Store) (i : nat) (name : string) :
  i < length (rows s) ->
  columnEditable s name = false
  \/ (rowDisabled s i = true /\ isFollower (rows s) name i = false) ->
  (forall m a, getValue (paste m a s) i name = getValue s i name)
  /\ (forall range, getValue (delRange range s) i name = getValue s i name)
  /\ (forall key cn, getValue (del key cn s) i name = getValue s i name)
  /\ (forall m a r c v' col,
         visibleColumns (columnModel s) !! (column a + c) = Some col ->
         open s (row a + r) col = false ->
         paste (alter (<[ c := v' ]>) r m) a s = paste m a s)
  /\ (forall m a i' name' j,
         mainRowOf (rows s) name' i' = Some j ->
         getValue s i' name' = storedValue (rows s) j name'
         /\ getValue (paste m a s) i' name'
            = storedValue (rows (paste m a s)) j name')
  /\ (forall m a i' name',
         i' < length (rows s) -> isFollower (rows s) name' i' = false ->
         ~ aimedAt m a s i' name' ->
         getValue (paste m a s) i' name' = getValue s i' name')
  /\ (forall range key cn i' name' j,
         mainRowOf (rows s) name' i' = Some j ->
         getValue (delRange range s) i' name'
         = storedValue (rows (delRange range s)) j name'
         /\ getValue (del key cn s) i' name'
            = storedValue (rows (del key cn s)) j name')
  /\ (forall range i' name',
         isFollower (rows s) name' i' = false ->
         ~ clearedBy range s i' name' ->
         getValue (delRange range s) i' name' = getValue s i' name')
  /\ (forall key cn i' name',
         isFollower (rows s) name' i' = false ->
         ~ deletedBy key cn s i' name' ->
         getValue (del key cn s) i' name' = getValue s i' name')
  /\ (forall range i' name',
         i' < length (rows s) -> clearedBy range s i' name' ->
         getValue (delRange range s) i' name' = Some "")
  /\ (forall key cn i' name',
         deletedBy key cn s i' name' ->
         getValue (del key cn s) i' name' = Some "").
Proof.
  intros Hi Hx.
  split; [|split; [|split; [|split; [|split; [|split; [|split; [|split;
    [|split; [|split]]]]]]]]].
  - intros m a. apply getValue_kept; auto using paste_grows.
    intros i' name'. apply paste_keep.
  - intros range. apply getValue_kept; auto.
    + apply keeps_grows, delRange_keeps.
    + intros i' name'. apply delRange_keep.
  - intros key cn. apply getValue_kept; auto.
    + apply keeps_grows, del_keeps.
    + intros i' name'. apply del_keep.
  - intros m a r c v' col Hcol Ho. unfold paste.
    now apply (pasteRows_closed _ _ m s r c v' col).
  - intros m a i' name' j Hj. split; [now apply getValue_main|].
    apply getValue_main.
    now rewrite (mainRowOf_grows _ _ _ _ (paste_grows m a s)).
  - intros m a i' name' Hi' Hf Hna.
    rewrite !getValue_own;
      [|exact Hf | now rewrite (isFollower_grows _ _ _ _ (paste_grows m a s))].
    apply (storedValue_kept _ _ _ _ (paste_grows m a s) Hi').
    now apply paste_keep_unaimed.
  - intros range key cn i' name' j Hj. split; apply getValue_main.
    + now rewrite (mainRowOf_grows _ _ _ _
                     (keeps_grows _ _ (delRange_keeps range s))).
    + now rewrite (mainRowOf_grows _ _ _ _
                     (keeps_grows _ _ (del_keeps key cn s))).
  - intros range i' name' Hf Hn.
    apply getValue_own_kept; [apply delRange_keeps | exact Hf |].
    now apply delRange_keep_outside.
  - intros key cn i' name' Hf Hn.
    apply getValue_own_kept; [apply del_keeps | exact Hf |].
    now apply del_keep_outside.
  - intros range i' name' Hi' Hc.
    pose proof (delRange_sets range s i' name' Hi' Hc) as He.
    destruct Hc as (k & col & _ & _ & _ & <- & Ho).
    now apply (getValue_emptied s _ i' col (delRange_keeps range s)).
  - intros key cn i' name' Hd.
    destruct (del_sets key cn s i' name' Hd) as [Hi' He].
    destruct Hd as (r & k & col & _ & _ & _ & _ & Hcn & _ & <- & Ho).
    subst cn.
    now apply (getValue_emptied s _ i' col (del_keeps key _ s)).
Qed.

(** **** Where the written values land *)

Lemma pasteRow_reach i k vs s c v col :
  vs !! c = Some v ->
  visibleColumns (columnModel s) !! (k + c) = Some col ->
  i < length (rows (pasteRow i k vs s)).
Proof.
  revert k s c. induction vs as [|v0 vs IH]; intros k s c Hv Hcol;
    [discriminate|].
  cbn [pasteRow]. destruct c as [|c].
  - rewrite Nat.add_0_r in Hcol.
    pose proof (grows_length _ _ (pasteRow_grows i (S k) vs (pasteCell i k v0 s))).
    pose proof (pasteCell_length i k v0 s) as Hl. rewrite Hcol in Hl. lia.
  - apply (IH (S k) _ c Hv).
    destruct (pasteCell_grows i k v0 s) as [-> _].
    now replace (S k + c) with (k + S c) by lia.
Qed.

Lemma pasteRows_reach i k m s r c vs v col :
  m !! r = Some vs -> vs !! c = Some v ->
  visibleColumns (columnModel s) !! (k + c) = Some col ->
  i + r < length (rows (pasteRows i k m s)).
Proof.
  revert i s r. induction m as [|vs0 m IH]; intros i s r Hr Hv Hcol;
    [discriminate|].
  cbn [pasteRows]. destruct r as [|r].
  - injection Hr as ->. rewrite Nat.add_0_r.
    pose proof (grows_length _ _ (pasteRows_grows (S i) k m (pasteRow i k vs s))).
    pose proof (pasteRow_reach i k vs s c v col Hv Hcol). lia.
  - replace (i + S r) with (S i + r) by lia.
    apply (IH (S i) _ r Hr Hv).
    now destruct (pasteRow_grows i k vs0 s) as [-> _].
Qed.

Lemma visibleColumns_not_hidden cm c :
  c ∈ visibleColumns cm -> c ∈ cm /\ isHidden c = false.
Proof.
  unfold visibleColumns. rewrite !list_elem_of_In, filter_In.
  intros [Hin Hh]. split; [exact Hin|]. now apply negb_true_iff.
Qed.

Lemma hidden_not_editable s name :
  (forall c, c ∈ columnModel s -> columnName c = name -> isHidden c = true) ->
  columnEditable s name = false.
Proof.
  intros Hh. unfold columnEditable. apply not_true_iff_false. intros Hex.
  apply existsb_exists in Hex as (c & Hin & Hc).
  apply andb_true_iff in Hc as [Hn _]. apply String.eqb_eq in Hn.
  apply list_elem_of_In, visibleColumns_not_hidden in Hin as [Hin Hv].
  rewrite (Hh c Hin Hn) in Hv. discriminate.
Qed.

(** C2: the value at matrix position [(r, c)] is written to the row
    [startAddress.row + r] under the name of the column that stands at
    position [startAddress.column + c] among the visible columns, hidden
    columns not being counted; no cell of a hidden column changes.  With
    [c2] hidden among [c1, c2, c3], pasting [[a, b], [c, d]] at [(0, 0)] puts
    [a] and [c] into [c1], [b] and [d] into [c3], and leaves [c2] alone. *)
Theorem paste_counts_visible_columns_only
    (s : Store) (m : list (list string)) (a : Address)
    (r c : nat) (vs : list string) (v : string) (col : Column) :
  visibleNamesUnique s ->
  m !! r = Some vs -> vs !! c = Some v ->
  visibleColumns (columnModel s) !! (column a + c) = Some col ->
  open s (row a + r) col = true ->
  isHidden col = false
  /\ getValue (paste m a s) (row a + r) (columnName col) = Some v
  /\ (forall i name,
         i < length (rows s) ->
         (forall c', c' ∈ columnModel s -> columnName c' = name ->
                     isHidden c' = true) ->
         getValue (paste m a s) i name = getValue s i name)
  /\ (forall v01 v02 v03 v11 v12 v13 va vb vc vd,
         let g := hiddenColumnGrid v01 v02 v03 v11 v12 v13 in
         let g' := paste [[va; vb]; [vc; vd]] {| row := 0; column := 0 |} g in
         getValue g' 0 "c1" = Some va /\ getValue g' 0 "c2" = Some v02
         /\ getValue g' 0 "c3" = Some vb /\ getValue g' 1 "c1" = Some vc
         /\ getValue g' 1 "c2" = Some v12 /\ getValue g' 1 "c3" = Some vd).
Proof.
  intros Hnd Hr Hv Hcol Ho.
  split; [|split; [|split]].
  - apply (visibleColumns_not_hidden (columnModel s)).
    eapply list_elem_of_lookup_2, Hcol.
  - pose proof (paste_grows m a s) as Hg.
    assert (isFollower (rows s) (columnName col) (row a + r) = false) as Hf.
    { unfold open in Ho. apply andb_true_iff in Ho as [_ Ho].
      now apply negb_true_iff in Ho. }
    rewrite getValue_own by now rewrite (isFollower_grows _ _ _ _ Hg).
    rewrite storedValue_cellOrDefault
      by exact (pasteRows_reach _ _ m s r c vs v col Hr Hv Hcol).
    now apply (pasteRows_hit _ _ m s r c vs v col).
  - intros i name Hi Hh.
    apply getValue_kept; auto using paste_grows, hidden_not_editable.
    intros i' name'. apply paste_keep.
  - intros. repeat split; reflexivity.
Qed.

(** **** Appended rows *)






(** **** The unit tests of [rowList.paste], replayed *)

Example test_paste_single :
  getValue (paste [["New2-2"]] {| row := 2; column := 1 |} textGrid) 2 "c2"
  = Some "New2-2".
Proof. reflexivity. Qed.

Example test_paste_2x2 :
  let g := paste [["New1-1"; "New1-2"]; ["New2-1"; "New2-2"]]
             {| row := 1; column := 0 |} textGrid in
  getValue g 1 "c1" = Some "New1-1" /\ getValue g 1 "c2" = Some "New1-2"
  /\ getValue g 2 "c1" = Some "New2-1" /\ getValue g 2 "c2" = Some "New2-2".
Proof. repeat split; reflexivity. Qed.

(** Values past the last column are ignored: the last column holds the
    first value, not the last, and no row is added for the others. *)
Example test_paste_column_overflow :
  let g := paste [["New2-3"; "New2-4"; "New2-5"]]
             {| row := 2; column := 2 |} textGrid in
  getValue g 2 "c3" = Some "New2-3" /\ getValue g 2 "c1" = Some "2-1"
  /\ getValue g 2 "c2" = Some "2-2" /\ length (rows g) = 3.
Proof. repeat split; reflexivity. Qed.

Example test_paste_row_overflow :
  let g := paste [["New2-2"; "New2-3"]; ["New3-2"; "New3-3"]]
             {| row := 2; column := 1 |} textGrid in
  getValue g 2 "c2" = Some "New2-2" /\ getValue g 2 "c3" = Some "New2-3"
  /\ getValue g 3 "c2" = Some "New3-2" /\ getValue g 3 "c3" = Some "New3-3"
  /\ getValue g 3 "c1" = Some "" /\ length (rows g) = 4.
Proof. repeat split; reflexivity. Qed.

Example test_paste_no_editOption :
  let g := paste [["New0-1"; "New0-2"]; ["New1-1"; "New1-2"]]
             {| row := 0; column := 0 |} noEditGrid in
  getValue g 0 "c1" = Some "New0-1" /\ getValue g 0 "c2" = Some "0-2"
  /\ getValue g 1 "c1" = Some "New1-1" /\ getValue g 1 "c2" = Some "1-2".
Proof. repeat split; reflexivity. Qed.

Example test_paste_disabled :
  let g := paste [["New0-1"; "New0-2"]; ["New1-1"; "New1-2"]]
             {| row := 0; column := 0 |} disabledGrid in
  getValue g 0 "c1" = Some "0-1" /\ getValue g 0 "c2" = Some "0-2"
  /\ getValue g 1 "c1" = Some "New1-1" /\ getValue g 1 "c2" = Some "New1-2".
Proof. repeat split; reflexivity. Qed.

Example test_paste_hidden :
  let g := paste [["New0-1"; "New0-3"]; ["New1-1"; "New1-3"]]
             {| row := 0; column := 0 |}
             (hiddenColumnGrid "0-1" "0-2" "0-3" "1-1" "1-2" "1-3") in
  getValue g 0 "c1" = Some "New0-1" /\ getValue g 0 "c2" = Some "0-2"
  /\ getValue g 0 "c3" = Some "New0-3" /\ getValue g 1 "c1" = Some "New1-1"
  /\ getValue g 1 "c2" = Some "1-2" /\ getValue g 1 "c3" = Some "New1-3".
Proof. repeat split; reflexivity. Qed.

Example test_paste_rowSpan :
  let g := paste [["New0-1"; "New0-2"]; ["New1-1"; "New1-2"]]
             {| row := 0; column := 0 |} rowSpanGrid in
  getValue g 0 "c1" = Some "New0-1" /\ getValue g 0 "c2" = Some "New0-2"
  /\ getValue g 1 "c1" = Some "New1-1" /\ getValue g 1 "c2" = Some "New0-2".
Proof. repeat split; reflexivity. Qed.

(** Counterexample to C1 as worded: in the unit test on row spans the cell
    of row 1 in [c2] is a follower inside the pasted rectangle, and it does
    not keep its value: it reads as the main row's cell, which the paste
    rewrites. *)
Lemma follower_value_changes :
  let g := rowSpanGrid in
  let g' := paste [["New0-1"; "New0-2"]; ["New1-1"; "New1-2"]]
              {| row := 0; column := 0 |} g in
  isFollower (rows g) "c2" 1 = true
  /\ getValue g 1 "c2" = Some "0-2"
  /\ getValue g' 1 "c2" = Some "New0-2"
  /\ getValue g' 1 "c2" <> getValue g 1 "c2".
Proof. cbv zeta. repeat split; try reflexivity. discriminate. Qed.

(** **** Worked instances *)




(** Witness of C1: the unit test with a disabled first row. *)
(** A range delete over rows 0 to 1 and visible columns 1 to 2 of the text
    grid empties those four cells and no other. *)
Example delRange_text_grid :
  let g' := delRange {| range_row := (0, 1); range_column := (1, 2) |}
              textGrid in
  (fun i => (fun name => getValue g' i name) <$> ["c1"; "c2"; "c3"])
    <$> [0; 1; 2]
  = [ [Some "0-1"; Some ""; Some ""];
      [Some "1-1"; Some ""; Some ""];
      [Some "2-1"; Some "2-2"; Some "2-3"] ].
Proof. reflexivity. Qed.

Example delRange_text_grid_covers :
  clearedBy {| range_row := (0, 1); range_column := (1, 2) |} textGrid 1 "c3"
  /\ ~ clearedBy {| range_row := (0, 1); range_column := (1, 2) |} textGrid
         2 "c3".
Proof.
  split.
  - exists 2, (textColumn "c3"). cbn [range_row range_column fst snd].
    repeat split; try reflexivity; lia.
  - intros (k & col & Hr & _). cbn [range_row fst snd] in Hr. lia.
Qed.

(** A range delete over the whole grid leaves the disabled row as it is. *)
Example delRange_disabled_grid :
  let g' := delRange {| range_row := (0, 1); range_column := (0, 1) |}
              disabledGrid in
  (fun i => (fun name => getValue g' i name) <$> ["c1"; "c2"]) <$> [0; 1]
  = [ [Some "0-1"; Some "0-2"]; [Some ""; Some ""] ].
Proof. reflexivity. Qed.

(** A single delete empties the one cell it addresses. *)
Example del_text_grid :
  let g' := del 1 "c2" textGrid in
  (fun i => (fun name => getValue g' i name) <$> ["c1"; "c2"; "c3"])
    <$> [0; 1; 2]
  = [ [Some "0-1"; Some "0-2"; Some "0-3"];
      [Some "1-1"; Some ""; Some "1-3"];
      [Some "2-1"; Some "2-2"; Some "2-3"] ].
Proof. reflexivity. Qed.

Example del_text_grid_addresses : deletedBy 1 "c2" textGrid 1 "c2".
Proof.
  exists (mkRow 1 false [] [("c1", "1-1"); ("c2", "1-2"); ("c3", "1-3")]), 1,
    {| columnName := "c2"; title := "c2";
       editOption := Some "text-convertible"; isHidden := false;
       defaultValue := None |}.
  repeat split; try reflexivity.
  - intros j r' Hj Hr'. assert (j = 0) as -> by lia.
    cbn in Hr'. injection Hr' as <-. cbn. lia.
  - intros j c' Hj Hc'. assert (j = 0) as -> by lia.
    cbn in Hc'. injection Hc' as <-. cbn. discriminate.
Qed.

(** A delete aimed at a row-span follower writes nothing; a delete aimed at
    the main row shows in the follower. *)
Example del_row_span_grid :
  del 1 "c2" rowSpanGrid = rowSpanGrid
  /\ getValue (del 0 "c2" rowSpanGrid) 1 "c2" = Some "".
Proof. split; reflexivity. Qed.

Lemma closed_cells_keep_their_value_witness :
  (0 < length (rows disabledGrid)
   /\ (columnEditable disabledGrid "c1" = false
       \/ (rowDisabled disabledGrid 0 = true
           /\ isFollower (rows disabledGrid) "c1" 0 = false)))
  /\ getValue
       (paste [["New0-1"; "New0-2"]; ["New1-1"; "New1-2"]]
          {| row := 0; column := 0 |} disabledGrid) 0 "c1"
     = getValue disabledGrid 0 "c1".
Proof.
  assert (0 < length (rows disabledGrid)) as Hi by (cbn; lia).
  assert (columnEditable disabledGrid "c1" = false
          \/ (rowDisabled disabledGrid 0 = true
              /\ isFollower (rows disabledGrid) "c1" 0 = false)) as Hx
      by (right; split; reflexivity).
  split; [exact (conj Hi Hx)|].
  exact (proj1 (closed_cells_keep_their_value disabledGrid 0 "c1" Hi Hx) _ _).
Defined.

(** Witness of C2: the second value of the first matrix row goes to [c3],
    the second visible column. *)
Lemma paste_counts_visible_columns_only_witness :
  let g := hiddenColumnGrid "0-1" "0-2" "0-3" "1-1" "1-2" "1-3" in
  let m := [["a"; "b"]; ["c"; "d"]] in
  let a := {| row := 0; column := 0 |} in
  (visibleNamesUnique g
   /\ m !! 0 = Some ["a"; "b"] /\ ["a"; "b"] !! 1 = Some "b"
   /\ visibleColumns (columnModel g) !! (column a + 1) = Some (textColumn "c3")
   /\ open g (row a + 0) (textColumn "c3") = true)
  /\ getValue (paste m a g) 0 "c3" = Some "b".
Proof.
  cbv zeta.
  assert (visibleNamesUnique
            (hiddenColumnGrid "0-1" "0-2" "0-3" "1-1" "1-2" "1-3")) as Hnd.
  { unfold visibleNamesUnique. cbn.
    apply (bool_decide_unpack _). vm_compute. exact I. }
  split; [repeat split; try reflexivity; exact Hnd|].
  exact (proj1 (proj2
    (paste_counts_visible_columns_only
       (hiddenColumnGrid "0-1" "0-2" "0-3" "1-1" "1-2" "1-3")
       [["a"; "b"]; ["c"; "d"]] {| row := 0; column := 0 |}
       0 1 ["a"; "b"] "b" (textColumn "c3")
       Hnd eq_refl eq_refl eq_refl eq_refl))).
Defined.


End RowList.
